(** * The streaming chat-response assembler of [src/app/page.tsx]

  The page component [Home] keeps seven pieces of React state and one
  asynchronous handler, [sendMessage], which posts the conversation to the
  chat endpoint and folds the streamed reply into the transcript.  This
  development embeds that handler and the pieces of the JavaScript
  run-time it calls, and proves the properties the specification states
  about it.

  Conventions of the embedding.
  - A JavaScript string is the list of its UTF-16 code units ([jsstring]).
  - A value obtained from [JSON.parse] is a [JValue]; a number is the
    binary64 value the literal rounds to.
  - [sendMessage] is written in a state-and-exception monad over a
    [Machine]: the React state of the component, the two [let] variables of
    the handler, the requests handed to [fetch] and the list of states
    reached after each state setter.  In [Home] a state setter takes effect
    when it is called: updater functions run in the order they are issued,
    and an updater that mentions [aiResponseText] reads the value the
    variable has at that moment.  React may run an updater later, when the
    variable holds more of the reply; the text of a message of the AI that
    is not the last one can then be longer than [Home] computes.  The
    statements below are about what does not depend on that moment: the
    variables of the handler, the senders in the transcript, the messages
    of the user, the last message, and whether a message is there at all.
    [Deferred] is the same read loop with the updaters queued, for the
    properties stated at every such moment.
  - An exception raised by the engine carries its name and an empty
    message, where an engine puts words of its own.  Where a concrete
    transcript shows such an exception, its text stands for what the
    engine prints; [is_line_notice] recognises the message of the inner
    [catch] by its opening words alone.
  - The network is an input: what [fetch] answers and what the body reader
    delivers, each chunk already turned into text by the [TextDecoder]. *)

From Stdlib Require Import List NArith ZArith Bool Ascii String Lia.
Import ListNotations.

Set Implicit Arguments.
Set Warnings "-register-all".

(* ===================================================================== *)
(** * The JavaScript run-time used by the page *)
(* ===================================================================== *)

Module JS.

(** ** Strings *)

Definition code_unit := N.
Definition jsstring := list code_unit.

(** A literal of the source, written with ASCII characters. *)
Definition str (s : string) : jsstring :=
  map N_of_ascii (list_ascii_of_string s).
Arguments str s%_string.

Fixpoint jsstring_eqb (a b : jsstring) : bool :=
  match a, b with
  | [], [] => true
  | x :: a', y :: b' => N.eqb x y && jsstring_eqb a' b'
  | _, _ => false
  end.

(** [WhiteSpace] and [LineTerminator] of ECMA-262, the code units that
    [String.prototype.trim] strips. *)
Definition is_white_space (c : code_unit) : bool :=
  ((9 <=? c) && (c <=? 13)             (* TAB LF VT FF CR *)
   || (c =? 32) || (c =? 160)          (* SP NBSP *)
   || (c =? 5760)                      (* U+1680 *)
   || ((8192 <=? c) && (c <=? 8202))   (* U+2000 .. U+200A *)
   || (c =? 8232) || (c =? 8233)       (* LS PS *)
   || (c =? 8239) || (c =? 8287)       (* U+202F U+205F *)
   || (c =? 12288) || (c =? 65279))%N. (* U+3000 BOM *)

Fixpoint trim_start (s : jsstring) : jsstring :=
  match s with
  | [] => []
  | c :: s' => if is_white_space c then trim_start s' else s
  end.

Definition trim_end (s : jsstring) : jsstring :=
  rev (trim_start (rev s)).

(** [s.trim()] *)
Definition trim (s : jsstring) : jsstring := trim_end (trim_start s).

Definition LF : code_unit := 10%N.

(** [s.split('\n')]: the pieces between line feeds; always at least one
    piece. *)
Fixpoint split_lines (s : jsstring) : list jsstring :=
  match s with
  | [] => [[]]
  | c :: s' =>
      if (c =? LF)%N then [] :: split_lines s'
      else match split_lines s' with
           | [] => [[c]]
           | piece :: pieces => (c :: piece) :: pieces
           end
  end.

(** Decimal digits of a natural number, as [Number::toString] prints an
    integer. *)
Fixpoint uint_digits (d : Decimal.uint) : jsstring :=
  match d with
  | Decimal.Nil => []
  | Decimal.D0 d' => 48%N :: uint_digits d'
  | Decimal.D1 d' => 49%N :: uint_digits d'
  | Decimal.D2 d' => 50%N :: uint_digits d'
  | Decimal.D3 d' => 51%N :: uint_digits d'
  | Decimal.D4 d' => 52%N :: uint_digits d'
  | Decimal.D5 d' => 53%N :: uint_digits d'
  | Decimal.D6 d' => 54%N :: uint_digits d'
  | Decimal.D7 d' => 55%N :: uint_digits d'
  | Decimal.D8 d' => 56%N :: uint_digits d'
  | Decimal.D9 d' => 57%N :: uint_digits d'
  end.

Definition decimal (n : N) : jsstring := uint_digits (N.to_uint n).

(** ** Numbers

    A Number obtained from a JSON literal is never NaN: it is a signed
    zero, a signed infinity, or [m * 2^e] with [0 < m < 2^53] and
    [-1074 <= e <= 971]. *)

Inductive Number :=
| NZero (neg : bool)
| NFinite (neg : bool) (m e : Z)
| NInfinity (neg : bool).

Definition round_half_even (num den : Z) : Z :=
  let q := (num / den)%Z in
  let r := (num mod den)%Z in
  if (2 * r <? den)%Z then q
  else if (den <? 2 * r)%Z then (q + 1)%Z
  else if Z.even q then q else (q + 1)%Z.

(** The fraction [num / den / 2^e]. *)
Definition scale2 (num den e : Z) : Z * Z :=
  ((num * 2 ^ Z.max 0 (- e))%Z, (den * 2 ^ Z.max 0 e)%Z).

(** The binary64 value nearest to [M * 10^k] (ties to even), as the
    StringNumericLiteral of a JSON number is converted. *)
Definition binary64_of_decimal (neg : bool) (M k : Z) : Number :=
  if (M =? 0)%Z then NZero neg else
  let num := (M * 10 ^ Z.max 0 k)%Z in
  let den := (10 ^ Z.max 0 (- k))%Z in
  let e0 := (Z.log2 num - Z.log2 den - 53)%Z in
  let '(n0, d0) := scale2 num den e0 in
  let e1 := if (n0 / d0 <? 2 ^ 53)%Z then e0 else (e0 + 1)%Z in
  let e := Z.max e1 (-1074) in
  let '(n1, d1) := scale2 num den e in
  let m := round_half_even n1 d1 in
  let '(m, e) := if (m =? 2 ^ 53)%Z then ((2 ^ 52)%Z, (e + 1)%Z) else (m, e) in
  if (m =? 0)%Z then NZero neg
  else if (971 <? e)%Z then NInfinity neg
  else NFinite neg m e.

Definition ZERO : code_unit := 48%N.

Definition num_digits (n : Z) : Z :=
  Z.of_nat (List.length (decimal (Z.to_N n))).

(** The [n] with [10^(n-1) <= P/Q < 10^n], for positive [P] and [Q]. *)
Definition decimal_magnitude (P Q : Z) : Z :=
  if (Q <=? P)%Z then num_digits (P / Q)
  else let j := (num_digits Q - num_digits P)%Z in
       if (Q <=? P * 10 ^ j)%Z then (1 - j)%Z else (- j)%Z.

(** The shortest digit string [s] (with its decimal point position [n])
    such that [s * 10^(n-k)] converts back to [m * 2^e], the closest one
    when several of that length do: step 5 of [Number::toString]. *)
Fixpoint shortest_digits (fuel : nat) (k : Z) (m e P Q n : Z)
  : jsstring * Z :=
  let sh := (n - k)%Z in
  let num := (P * 10 ^ Z.max 0 (- sh))%Z in
  let den := (Q * 10 ^ Z.max 0 sh)%Z in
  let lo := (num / den)%Z in
  let hi := (lo + 1)%Z in
  let back c :=
    match binary64_of_decimal false c sh with
    | NFinite _ m' e' => ((m' =? m) && (e' =? e))%Z
    | _ => false
    end in
  let r := (num mod den)%Z in
  let lo_nearer := ((2 * r <? den) || ((2 * r =? den) && Z.even lo))%Z in
  let pick :=
    match back lo, back hi with
    | true, true => Some (if lo_nearer then lo else hi)
    | true, false => Some lo
    | false, true => Some hi
    | false, false => None
    end in
  match pick with
  | Some s =>
      if (s =? 10 ^ k)%Z then ([49%N], (n + 1)%Z)
      else (decimal (Z.to_N s), n)
  | None =>
      match fuel with
      | O => (decimal (Z.to_N lo), n)
      | S fuel' => shortest_digits fuel' (k + 1)%Z m e P Q n
      end
  end.

Definition format_decimal (digits : jsstring) (n : Z) : jsstring :=
  let k := Z.of_nat (List.length digits) in
  if ((k <=? n) && (n <=? 21))%Z then
    digits ++ repeat ZERO (Z.to_nat (n - k))
  else if ((0 <? n) && (n <=? 21))%Z then
    firstn (Z.to_nat n) digits ++ str "." ++ skipn (Z.to_nat n) digits
  else if ((-6 <? n) && (n <=? 0))%Z then
    str "0." ++ repeat ZERO (Z.to_nat (- n)) ++ digits
  else
    let mantissa :=
      match digits with
      | d :: d2 :: ds => d :: str "." ++ d2 :: ds
      | _ => digits
      end in
    mantissa ++ str "e" ++ (if (0 <? n)%Z then str "+" else str "-")
             ++ decimal (Z.to_N (Z.abs (n - 1))).

(** [Number::toString(x)] in radix 10. *)
Definition Number_toString (x : Number) : jsstring :=
  match x with
  | NZero _ => str "0"
  | NInfinity neg => (if neg then str "-" else []) ++ str "Infinity"
  | NFinite neg m e =>
      let P := (m * 2 ^ Z.max 0 e)%Z in
      let Q := (2 ^ Z.max 0 (- e))%Z in
      let n := decimal_magnitude P Q in
      let '(digits, n) := shortest_digits 17 1 m e P Q n in
      (if neg then str "-" else []) ++ format_decimal digits n
  end.

(** ** Values *)

Inductive JValue :=
| JUndefined
| JNull
| JBool (b : bool)
| JNumber (x : Number)
| JString (s : jsstring)
| JArray (elements : list JValue)
| JObject (properties : list (jsstring * JValue)).

(** A thrown [Error] object: its [name] and its [message]. *)
Record Exn := mkExn { exn_name : jsstring; exn_message : jsstring }.

(** The outcome of evaluating an expression or running a statement. *)
Inductive Completion (A : Type) :=
| Normal (a : A)
| Throw (e : Exn).
Arguments Normal {A} a.
Arguments Throw {A} e.

(** The message of an error raised by the engine itself is
    implementation-defined; the model leaves it empty. *)
Definition SyntaxError : Exn := mkExn (str "SyntaxError") [].
Definition TypeError : Exn := mkExn (str "TypeError") [].
(** [new Error(message)] *)
Definition Error (message : jsstring) : Exn := mkExn (str "Error") message.

(** [Error.prototype.toString], which a template literal applies to a
    caught error. *)
Definition Exn_toString (e : Exn) : jsstring :=
  match exn_name e, exn_message e with
  | name, [] => name
  | [], message => message
  | name, message => name ++ str ": " ++ message
  end.

(** ** JSON.parse: tokens *)

Inductive Token :=
| TLBrace | TRBrace | TLBracket | TRBracket | TColon | TComma
| TString (s : jsstring)
| TNumber (x : Number)
| TTrue | TFalse | TNull.

(** Where the scanner stands inside a number literal: an optional minus,
    then 0 or a non-zero digit followed by digits, then optionally a point
    and at least one digit, then optionally e or E, a sign and at least
    one digit. *)
Inductive NumPhase :=
| PMinus | PZero | PInt | PDot | PFrac | PExp | PExpSign | PExpDigits.

Record NumAcc := mkNumAcc {
  num_neg : bool;       (* a leading minus was read *)
  num_mant : Z;         (* integer and fraction digits read so far *)
  num_scale : Z;        (* how many of them are fraction digits *)
  num_eneg : bool;      (* the exponent has a minus sign *)
  num_exp : Z           (* exponent digits read so far *)
}.

Definition num_value (a : NumAcc) : Number :=
  binary64_of_decimal (num_neg a) (num_mant a)
    ((if num_eneg a then - num_exp a else num_exp a) - num_scale a)%Z.

Definition is_digit (c : code_unit) : bool := ((48 <=? c) && (c <=? 57))%N.
Definition digit_value (c : code_unit) : Z := Z.of_N (c - 48).

Definition hex_value (c : code_unit) : option N :=
  if ((48 <=? c) && (c <=? 57))%N then Some (c - 48)%N
  else if ((65 <=? c) && (c <=? 70))%N then Some (c - 55)%N
  else if ((97 <=? c) && (c <=? 102))%N then Some (c - 87)%N
  else None.

Definition push_digit (a : NumAcc) (c : code_unit) (frac : bool) : NumAcc :=
  mkNumAcc (num_neg a) (num_mant a * 10 + digit_value c)%Z
           (if frac then num_scale a + 1 else num_scale a)%Z
           (num_eneg a) (num_exp a).

Definition push_exp_digit (a : NumAcc) (c : code_unit) : NumAcc :=
  mkNumAcc (num_neg a) (num_mant a) (num_scale a) (num_eneg a)
           (num_exp a * 10 + digit_value c)%Z.

Definition set_exp_sign (a : NumAcc) (neg : bool) : NumAcc :=
  mkNumAcc (num_neg a) (num_mant a) (num_scale a) neg (num_exp a).

(** One code unit inside a number: the next phase, or [None] when the
    code unit cannot continue the literal. *)
Definition num_step (p : NumPhase) (a : NumAcc) (c : code_unit)
  : option (NumPhase * NumAcc) :=
  let is_e := ((c =? 101) || (c =? 69))%N in
  match p with
  | PMinus =>
      if (c =? 48)%N then Some (PZero, a)
      else if is_digit c then Some (PInt, push_digit a c false) else None
  | PZero =>
      if (c =? 46)%N then Some (PDot, a)
      else if is_e then Some (PExp, a) else None
  | PInt =>
      if is_digit c then Some (PInt, push_digit a c false)
      else if (c =? 46)%N then Some (PDot, a)
      else if is_e then Some (PExp, a) else None
  | PDot =>
      if is_digit c then Some (PFrac, push_digit a c true) else None
  | PFrac =>
      if is_digit c then Some (PFrac, push_digit a c true)
      else if is_e then Some (PExp, a) else None
  | PExp =>
      if (c =? 43)%N then Some (PExpSign, a)
      else if (c =? 45)%N then Some (PExpSign, set_exp_sign a true)
      else if is_digit c then Some (PExpDigits, push_exp_digit a c) else None
  | PExpSign =>
      if is_digit c then Some (PExpDigits, push_exp_digit a c) else None
  | PExpDigits =>
      if is_digit c then Some (PExpDigits, push_exp_digit a c) else None
  end.

(** The phases in which a literal may end. *)
Definition num_complete (p : NumPhase) : bool :=
  match p with
  | PZero | PInt | PFrac | PExpDigits => true
  | _ => false
  end.

(** The scanner's mode: between tokens, or inside one. *)
Inductive Mode :=
| MDefault
| MNumber (p : NumPhase) (a : NumAcc)
| MString (acc : jsstring)                     (* reversed *)
| MEscape (acc : jsstring)                     (* after a backslash *)
| MUnicode (acc : jsstring) (todo : nat) (v : N) (* inside a u escape *)
| MKeyword (rest : jsstring) (t : Token).      (* rest of true/false/null *)

Definition emit (t : Token) (r : option (list Token)) : option (list Token) :=
  option_map (cons t) r.

Definition simple_escape (c : code_unit) : option code_unit :=
  if (c =? 34)%N then Some 34%N          (* quotation mark *)
  else if (c =? 92)%N then Some 92%N     (* reverse solidus *)
  else if (c =? 47)%N then Some 47%N     (* solidus *)
  else if (c =? 98)%N then Some 8%N      (* backspace *)
  else if (c =? 102)%N then Some 12%N    (* form feed *)
  else if (c =? 110)%N then Some 10%N    (* line feed *)
  else if (c =? 114)%N then Some 13%N    (* carriage return *)
  else if (c =? 116)%N then Some 9%N     (* tab *)
  else None.

Definition new_number (neg : bool) : NumAcc := mkNumAcc neg 0 0 false 0.

Fixpoint scan (mode : Mode) (s : jsstring) : option (list Token) :=
  match s with
  | [] =>
      match mode with
      | MDefault => Some []
      | MNumber p a => if num_complete p then Some [TNumber (num_value a)] else None
      | _ => None
      end
  | c :: s' =>
      (* what a code unit means between tokens *)
      let between :=
        if ((c =? 32) || (c =? 9) || (c =? 10) || (c =? 13))%N
        then scan MDefault s'
        else if (c =? 123)%N then emit TLBrace (scan MDefault s')
        else if (c =? 125)%N then emit TRBrace (scan MDefault s')
        else if (c =? 91)%N then emit TLBracket (scan MDefault s')
        else if (c =? 93)%N then emit TRBracket (scan MDefault s')
        else if (c =? 58)%N then emit TColon (scan MDefault s')
        else if (c =? 44)%N then emit TComma (scan MDefault s')
        else if (c =? 34)%N then scan (MString []) s'
        else if (c =? 45)%N then scan (MNumber PMinus (new_number true)) s'
        else if (c =? 48)%N then scan (MNumber PZero (new_number false)) s'
        else if is_digit c
             then scan (MNumber PInt (push_digit (new_number false) c false)) s'
        else if (c =? 116)%N then scan (MKeyword (str "rue") TTrue) s'
        else if (c =? 102)%N then scan (MKeyword (str "alse") TFalse) s'
        else if (c =? 110)%N then scan (MKeyword (str "ull") TNull) s'
        else None in
      match mode with
      | MDefault => between
      | MNumber p a =>
          match num_step p a c with
          | Some (p', a') => scan (MNumber p' a') s'
          | None =>
              if num_complete p then emit (TNumber (num_value a)) between
              else None
          end
      | MString acc =>
          if (c =? 34)%N then emit (TString (rev acc)) (scan MDefault s')
          else if (c =? 92)%N then scan (MEscape acc) s'
          else if (c <? 32)%N then None
          else scan (MString (c :: acc)) s'
      | MEscape acc =>
          if (c =? 117)%N then scan (MUnicode acc 4 0) s'
          else match simple_escape c with
               | Some x => scan (MString (x :: acc)) s'
               | None => None
               end
      | MUnicode acc todo v =>
          match hex_value c with
          | Some h =>
              let v' := (v * 16 + h)%N in
              match todo with
              | S (S n) => scan (MUnicode acc (S n) v') s'
              | _ => scan (MString (v' :: acc)) s'
              end
          | None => None
          end
      | MKeyword rest t =>
          match rest with
          | k :: rest' =>
              if (c =? k)%N then
                match rest' with
                | [] => emit t (scan MDefault s')
                | _ => scan (MKeyword rest' t) s'
                end
              else None
          | [] => None
          end
      end
  end.

(** ** JSON.parse: grammar

    A pushdown automaton over the tokens: the stack holds the arrays and
    objects that are still open. *)

Inductive Frame :=
| FArray (done : list JValue)                               (* reversed *)
| FObject (done : list (jsstring * JValue)) (key : jsstring). (* reversed *)

Inductive Expect :=
| EValue (stack : list Frame)              (* a value must follow *)
| EFirstElement (stack : list Frame)       (* after [ *)
| EFirstKey (stack : list Frame)           (* after { *)
| EKey (done : list (jsstring * JValue)) (stack : list Frame) (* after , in an object *)
| EColon (done : list (jsstring * JValue)) (key : jsstring) (stack : list Frame)
| EAfterElement (done : list JValue) (stack : list Frame)
| EAfterMember (done : list (jsstring * JValue)) (stack : list Frame)
| EEnd (v : JValue).                       (* the text must end here *)

(** A value [v] has just been completed below the frames of [stack]. *)
Definition completed (v : JValue) (stack : list Frame) : Expect :=
  match stack with
  | [] => EEnd v
  | FArray done :: stack' => EAfterElement (v :: done) stack'
  | FObject done key :: stack' => EAfterMember ((key, v) :: done) stack'
  end.

(** A token that starts a value, read below the frames of [stack]. *)
Definition start_value (t : Token) (stack : list Frame) : option Expect :=
  match t with
  | TString s => Some (completed (JString s) stack)
  | TNumber x => Some (completed (JNumber x) stack)
  | TTrue => Some (completed (JBool true) stack)
  | TFalse => Some (completed (JBool false) stack)
  | TNull => Some (completed JNull stack)
  | TLBracket => Some (EFirstElement stack)
  | TLBrace => Some (EFirstKey stack)
  | _ => None
  end.

Definition grammar_step (st : Expect) (t : Token) : option Expect :=
  match st, t with
  | EValue stack, _ => start_value t (stack)
  | EFirstElement stack, TRBracket => Some (completed (JArray []) stack)
  | EFirstElement stack, _ => start_value t (FArray [] :: stack)
  | EFirstKey stack, TRBrace => Some (completed (JObject []) stack)
  | EFirstKey stack, TString key => Some (EColon [] key stack)
  | EKey done stack, TString key => Some (EColon done key stack)
  | EColon done key stack, TColon => Some (EValue (FObject done key :: stack))
  | EAfterElement done stack, TComma => Some (EValue (FArray done :: stack))
  | EAfterElement done stack, TRBracket =>
      Some (completed (JArray (rev done)) stack)
  | EAfterMember done stack, TComma => Some (EKey done stack)
  | EAfterMember done stack, TRBrace =>
      Some (completed (JObject (rev done)) stack)
  | _, _ => None
  end.

Fixpoint grammar (st : Expect) (ts : list Token) : option JValue :=
  match ts with
  | [] => match st with EEnd v => Some v | _ => None end
  | t :: ts' =>
      match grammar_step st t with
      | Some st' => grammar st' ts'
      | None => None
      end
  end.

(** [JSON.parse(text)] of a string, without reviver: the value, or a
    thrown [SyntaxError]. *)
Definition JSON_parse (text : jsstring) : Completion JValue :=
  match scan MDefault text with
  | Some ts =>
      match grammar (EValue []) ts with
      | Some v => Normal v
      | None => Throw SyntaxError
      end
  | None => Throw SyntaxError
  end.

(** ** The operations the page applies to a parsed value *)

(** The property names the page reads.  None of them is an array index,
    [length], or a property of a built-in prototype, so only an object
    produced by [JSON.parse] can have one, as an own property. *)
Inductive PropertyKey := key_message | key_content | key_done.

Definition key_name (k : PropertyKey) : jsstring :=
  match k with
  | key_message => str "message"
  | key_content => str "content"
  | key_done => str "done"
  end.

(** The own property [name] of an object literal; when a name is written
    more than once the last one wins. *)
Definition own_property (properties : list (jsstring * JValue))
           (name : jsstring) : option JValue :=
  option_map snd
    (find (fun p => jsstring_eqb (fst p) name) (rev properties)).

(** [v.k]: reading a property of [null] or [undefined] throws. *)
Definition Get (v : JValue) (k : PropertyKey) : Completion JValue :=
  match v with
  | JUndefined | JNull => Throw TypeError
  | JObject properties =>
      Normal match own_property properties (key_name k) with
             | Some x => x
             | None => JUndefined
             end
  | _ => Normal JUndefined
  end.

Definition ToBoolean (v : JValue) : bool :=
  match v with
  | JUndefined | JNull => false
  | JBool b => b
  | JNumber (NZero _) => false
  | JNumber _ => true
  | JString [] => false
  | JString _ => true
  | JArray _ | JObject _ => true
  end.

(** [ToString(v)].  An array is joined with commas
    ([Array.prototype.toString]); an object prints as [[object Object]]
    unless it has an own [toString], which, coming from JSON, is not
    callable, and leaves no way to convert it. *)
Fixpoint ToString (v : JValue) : Completion jsstring :=
  match v with
  | JUndefined => Normal (str "undefined")
  | JNull => Normal (str "null")
  | JBool b => Normal (if b then str "true" else str "false")
  | JNumber x => Normal (Number_toString x)
  | JString s => Normal s
  | JArray elements =>
      (fix join (first : bool) (l : list JValue) : Completion jsstring :=
         match l with
         | [] => Normal []
         | x :: l' =>
             match match x with
                   | JUndefined | JNull => Normal []
                   | _ => ToString x
                   end with
             | Throw e => Throw e
             | Normal sx =>
                 match join false l' with
                 | Throw e => Throw e
                 | Normal rest =>
                     Normal ((if first then [] else str ",") ++ sx ++ rest)
                 end
             end
         end) true elements
  | JObject properties =>
      match own_property properties (str "toString") with
      | Some _ => Throw TypeError
      | None => Normal (str "[object Object]")
      end
  end.

(** [s + v] for a string [s]: the right operand is converted to a
    primitive and then to a string. *)
Definition string_plus (s : jsstring) (v : JValue) : Completion jsstring :=
  match ToString v with
  | Normal t => Normal (s ++ t)
  | Throw e => Throw e
  end.

End JS.

(* ===================================================================== *)
(** * The network, as the page sees it *)
(* ===================================================================== *)

Module Net.
Import JS.

Inductive Role := role_user | role_assistant.

(** [interface OllamaMessage] *)
Record OllamaMessage := { role : Role; content : jsstring }.

(** The arguments of the one [fetch] call of [sendMessage]. *)
Record Request := {
  url : jsstring;
  method : jsstring;
  model : jsstring;
  request_messages : list OllamaMessage;
  stream : bool
}.

(** What the body reader delivers: the decoded text of each chunk, in
    order, and then either the end of the stream ([done: true]) or a
    rejected read. *)
Record Body := { chunks : list jsstring; failure : option Exn }.

Record Response := { status : N; body : option Body }.

(** [response.ok]: the status is in the range 200 to 299. *)
Definition ok (r : Response) : bool :=
  ((200 <=? status r) && (status r <=? 299))%N.

(** What [await fetch(...)] does: the promise rejects, or resolves to a
    response. *)
Inductive Answer :=
| Rejects (e : Exn)
| Resolves (r : Response).

End Net.

(* ===================================================================== *)
(** * The page component [Home] *)
(* ===================================================================== *)

Module Home.
Import JS Net.

(** ** Data *)

Inductive Sender := user | ai.

(** [interface Message] *)
Record Message := { sender : Sender; text : jsstring }.

(** The seven [useState] cells of the component. *)
Record State := {
  messages : list Message;
  inputText : jsstring;
  isListening : bool;
  ttsEnabled : bool;
  isLoading : bool;
  currentModel : jsstring;
  isSettingsOpen : bool
}.

(** What one call of [sendMessage] works on: the component state, the two
    [let] variables of the call, the requests it has handed to [fetch],
    and the component state after each state setter it has called. *)
Record Machine := {
  ui : State;
  aiResponseText : jsstring;
  firstChunk : bool;
  requests : list Request;
  renders : list State
}.

(** The machine at the moment the handler is invoked on state [s]. *)
Definition invoke (s : State) : Machine :=
  {| ui := s; aiResponseText := []; firstChunk := true;
     requests := []; renders := [] |}.

(** ** Statements: state and exceptions *)

Definition M (A : Type) : Type := Machine -> Completion A * Machine.

Definition ret {A} (a : A) : M A := fun m => (Normal a, m).

Definition bind {A B} (c : M A) (k : A -> M B) : M B :=
  fun m =>
    match c m with
    | (Normal a, m') => k a m'
    | (Throw e, m') => (Throw e, m')
    end.

Definition throw {A} (e : Exn) : M A := fun m => (Throw e, m).

(** An expression without effect on the machine. *)
Definition eval {A} (c : Completion A) : M A := fun m => (c, m).

(** [try { body } catch (error) { handler }] *)
Definition try_catch (body : M unit) (handler : Exn -> M unit) : M unit :=
  fun m =>
    match body m with
    | (Normal a, m') => (Normal a, m')
    | (Throw e, m') => handler e m'
    end.

(** [try { body } finally { finalizer }] *)
Definition try_finally (body : M unit) (finalizer : M unit) : M unit :=
  fun m =>
    match body m with
    | (r, m') =>
        match finalizer m' with
        | (Normal _, m'') => (r, m'')
        | (Throw e, m'') => (Throw e, m'')
        end
    end.

Declare Scope js_scope.
Delimit Scope js_scope with js.
Notation "x <- c ;; k" := (bind c (fun x => k))
  (at level 100, c at next level, right associativity) : js_scope.
Notation "c ;; k" := (bind c (fun _ => k))
  (at level 100, right associativity) : js_scope.
Local Open Scope js_scope.

(** [for (const x of l) { body }] *)
Fixpoint for_of {A} (l : list A) (body : A -> M unit) : M unit :=
  match l with
  | [] => ret tt
  | x :: l' => body x ;; for_of l' body
  end.

(** ** State setters and variables *)

Definition commit (f : State -> State) : M unit :=
  fun m =>
    let s := f (ui m) in
    (Normal tt,
     {| ui := s; aiResponseText := aiResponseText m;
        firstChunk := firstChunk m; requests := requests m;
        renders := renders m ++ [s] |}).

Definition setMessages (f : list Message -> list Message) : M unit :=
  commit (fun s =>
    {| messages := f (messages s); inputText := inputText s;
       isListening := isListening s; ttsEnabled := ttsEnabled s;
       isLoading := isLoading s; currentModel := currentModel s;
       isSettingsOpen := isSettingsOpen s |}).

Definition setInputText (v : jsstring) : M unit :=
  commit (fun s =>
    {| messages := messages s; inputText := v;
       isListening := isListening s; ttsEnabled := ttsEnabled s;
       isLoading := isLoading s; currentModel := currentModel s;
       isSettingsOpen := isSettingsOpen s |}).

Definition setIsLoading (v : bool) : M unit :=
  commit (fun s =>
    {| messages := messages s; inputText := inputText s;
       isListening := isListening s; ttsEnabled := ttsEnabled s;
       isLoading := v; currentModel := currentModel s;
       isSettingsOpen := isSettingsOpen s |}).

Definition read {A} (f : Machine -> A) : M A := fun m => (Normal (f m), m).

Definition assign_aiResponseText (v : jsstring) : M unit :=
  fun m =>
    (Normal tt,
     {| ui := ui m; aiResponseText := v; firstChunk := firstChunk m;
        requests := requests m; renders := renders m |}).

Definition assign_firstChunk (v : bool) : M unit :=
  fun m =>
    (Normal tt,
     {| ui := ui m; aiResponseText := aiResponseText m; firstChunk := v;
        requests := requests m; renders := renders m |}).

(** [await fetch(...)]: the request leaves, the network answers. *)
Definition fetch (r : Request) (net : Answer) : M Response :=
  fun m =>
    let m' := {| ui := ui m; aiResponseText := aiResponseText m;
                 firstChunk := firstChunk m;
                 requests := requests m ++ [r]; renders := renders m |} in
    match net with
    | Rejects e => (Throw e, m')
    | Resolves response => (Normal response, m')
    end.

(** ** [sendMessage] *)

(** [parsedLine.message && parsedLine.message.content] *)
Definition message_and_content (parsedLine : JValue) : Completion JValue :=
  match Get parsedLine key_message with
  | Throw e => Throw e
  | Normal message =>
      if ToBoolean message then Get message key_content else Normal message
  end.

(** [parsedLine.message.content] *)
Definition message_content (parsedLine : JValue) : Completion JValue :=
  match Get parsedLine key_message with
  | Throw e => Throw e
  | Normal message => Get message key_content
  end.

(** [l[i]], [undefined] outside the array. *)
Definition at_index (l : list Message) (i : Z) : option Message :=
  if (i <? 0)%Z then None else nth_error l (Z.to_nat i).

(** [l[i] = x] on a copy of [l], for an index inside the array (the only
    use the page makes of it). *)
Fixpoint replace_at (l : list Message) (i : nat) (x : Message)
  : list Message :=
  match l, i with
  | [], _ => []
  | _ :: l', O => x :: l'
  | y :: l', S i' => y :: replace_at l' i' x
  end.

(** The updater of the first content fragment:
    [prev => [...prev, { sender: 'ai', text: aiResponseText }]]. *)
Definition append_reply (reply : jsstring) (prev : list Message)
  : list Message :=
  prev ++ [{| sender := ai; text := reply |}].

(** The updater of every later content fragment: rewrite the last message
    when it is the AI's, append otherwise. *)
Definition update_last (reply : jsstring) (prev : list Message)
  : list Message :=
  let lastMsgIndex := (Z.of_nat (List.length prev) - 1)%Z in
  match at_index prev lastMsgIndex with
  | Some {| sender := ai; text := _ |} =>
      replace_at prev (Z.to_nat lastMsgIndex)
                 {| sender := ai; text := reply |}
  | _ => prev ++ [{| sender := ai; text := reply |}]
  end.

(** The body of the inner [try]. *)
Definition try_line (line : jsstring) : M unit :=
  parsedLine <- eval (JSON_parse line) ;;
  condition <- eval (message_and_content parsedLine) ;;
  (if ToBoolean condition then
     delta <- eval (message_content parsedLine) ;;
     before <- read aiResponseText ;;
     after <- eval (string_plus before delta) ;;
     assign_aiResponseText after ;;
     first <- read firstChunk ;;
     if first then
       setMessages (append_reply after) ;;
       assign_firstChunk false
     else
       setMessages (update_last after)
   else ret tt) ;;
  _ <- eval (Get parsedLine key_done) ;;
  ret tt.

(** The message of the inner [catch]. *)
Definition line_notice (error : Exn) : Message :=
  {| sender := ai;
     text := str "Error processing response: " ++ Exn_toString error |}.

(** The handler of the inner [catch]. *)
Definition report_line (error : Exn) : M unit :=
  setMessages (fun prev => prev ++ [line_notice error]).

Definition each_line (line : jsstring) : M unit :=
  try_catch (try_line line) report_line.

(** [chunk.split('\n').filter(line => line.trim() !== '')] *)
Definition lines_of (chunk : jsstring) : list jsstring :=
  filter (fun line => negb (jsstring_eqb (trim line) []))
         (split_lines chunk).

(** The [while (true)] loop over [reader.read()]. *)
Fixpoint read_loop (pending : list jsstring) (ending : option Exn)
  : M unit :=
  match pending with
  | [] =>
      match ending with
      | Some e => throw e          (* the read rejects *)
      | None => ret tt             (* done: break *)
      end
  | chunk :: pending' =>
      for_of (lines_of chunk) each_line ;;
      read_loop pending' ending
  end.

(** The message of the outer [catch]. *)
Definition failure_notice (error : Exn) : Message :=
  {| sender := ai;
     text := str "Sorry, I couldn't connect to the AI. Error: "
             ++ Exn_toString error |}.

(** The handler of the outer [catch]. *)
Definition report_failure (error : Exn) : M unit :=
  setMessages (fun prev => prev ++ [failure_notice error]).

Definition chat_request (s : State) (updatedMessages : list Message)
  : Request :=
  {| url := str "http://localhost:11434/api/chat";
     method := str "POST";
     model := currentModel s;
     request_messages :=
       map (fun msg =>
              {| role := match sender msg with
                         | user => role_user
                         | ai => role_assistant
                         end;
                 content := text msg |})
           updatedMessages;
     stream := true |}.

(** The body of the outer [try]. *)
Definition converse (s : State) (updatedMessages : list Message)
           (net : Answer) : M unit :=
  response <- fetch (chat_request s updatedMessages) net ;;
  if negb (ok response) then
    throw (Error (str "HTTP error! status: " ++ decimal (status response)))
  else
    match body response with
    | None => throw (Error (str "Response body is null"))
    | Some reader =>
        assign_aiResponseText [] ;;
        assign_firstChunk true ;;
        read_loop (chunks reader) (failure reader)
    end.

(** [sendMessage], called from a render in which the state is [ui]. *)
Definition sendMessage (net : Answer) : M unit :=
  s <- read ui ;;
  if negb (ToBoolean (JString (trim (inputText s)))) || isLoading s
  then ret tt
  else
    let newUserMessage := {| sender := user; text := inputText s |} in
    let updatedMessages := messages s ++ [newUserMessage] in
    setMessages (fun _ => updatedMessages) ;;
    setInputText [] ;;
    setIsLoading true ;;
    try_finally
      (try_catch (converse s updatedMessages net) report_failure)
      (setIsLoading false).

(** The machine in which a call of [sendMessage] on state [s] ends. *)
Definition after_send (s : State) (net : Answer) : Machine :=
  snd (sendMessage net (invoke s)).

(** ** The two stages of a line

    [try_line] first turns the line into what the spec calls a fragment,
    which touches no state and may throw, and then folds the fragment into
    the reply, which cannot throw.  [decode] and [accumulate] name the two
    stages; [each_line_stages] below shows that they compose to
    [each_line]. *)

Inductive Fragment :=
| NoContent                     (* the guard on message.content fails *)
| Content (delta : jsstring).   (* the text that [+=] appends *)

Definition decode (line : jsstring) : Completion Fragment :=
  match JSON_parse line with
  | Throw e => Throw e
  | Normal parsedLine =>
      match message_and_content parsedLine with
      | Throw e => Throw e
      | Normal condition =>
          if ToBoolean condition then
            match message_content parsedLine with
            | Throw e => Throw e
            | Normal delta =>
                match ToString delta with
                | Throw e => Throw e
                | Normal d => Normal (Content d)
                end
            end
          else Normal NoContent
      end
  end.

Definition accumulate (f : Fragment) : M unit :=
  match f with
  | NoContent => ret tt
  | Content d =>
      before <- read aiResponseText ;;
      let after := before ++ d in
      assign_aiResponseText after ;;
      first <- read firstChunk ;;
      if first then
        setMessages (append_reply after) ;;
        assign_firstChunk false
      else
        setMessages (update_last after)
  end.

(** The machine after one line, and after a list of lines. *)
Definition run_line (line : jsstring) (m : Machine) : Machine :=
  snd (each_line line m).

Definition run_lines (lines : list jsstring) (m : Machine) : Machine :=
  snd (for_of lines each_line m).

(** All candidate lines of a stream, in arrival order. *)
Definition all_lines (delivered : list jsstring) : list jsstring :=
  flat_map lines_of delivered.

(** A literal of the wire format, written with an apostrophe wherever the
    wire has a quotation mark. *)
Definition wire (s : string) : jsstring :=
  map (fun c => if (c =? 39)%N then 34%N else c) (str s).
Arguments wire s%_string.

(** [prev[prev.length - 1]?.sender] *)
Definition last_sender (prev : list Message) : option Sender :=
  option_map sender (at_index prev (Z.of_nat (List.length prev) - 1)%Z).

(** A state to run examples from: an empty transcript and a typed
    greeting. *)
Definition greeting : State :=
  {| messages := []; inputText := str "hi"; isListening := false;
     ttsEnabled := false; isLoading := false;
     currentModel := str "llama3.2"; isSettingsOpen := false |}.

(** A response with status 200 whose body delivers the given chunks and
    then ends. *)
Definition streaming (delivered : list jsstring) : Answer :=
  Resolves {| status := 200;
              body := Some {| chunks := delivered; failure := None |} |}.

(** A machine in the middle of a stream in which a message of the user has
    been appended after the open reply. *)
Definition interleaved : Machine :=
  {| ui := {| messages := [ {| sender := user; text := str "hi" |};
                            {| sender := ai; text := str "Hel" |};
                            {| sender := user; text := str "wait" |} ];
              inputText := []; isListening := false; ttsEnabled := false;
              isLoading := true; currentModel := str "llama3.2";
              isSettingsOpen := false |};
     aiResponseText := str "Hel"; firstChunk := false;
     requests := []; renders := [] |}.

(** ** Names for the stations of a send *)

(** [newUserMessage] *)
Definition newUserMessage (s : State) : Message :=
  {| sender := user; text := inputText s |}.

(** The machine on entry to the outer [try]: the three setters before it
    have run. *)
Definition entered (s : State) : Machine :=
  snd ((setMessages (fun _ => messages s ++ [newUserMessage s]) ;;
        setInputText [] ;;
        setIsLoading true) (invoke s)).

(** The machine once the request has left. *)
Definition requested (request : Request) (m : Machine) : Machine :=
  {| ui := ui m; aiResponseText := aiResponseText m;
     firstChunk := firstChunk m;
     requests := requests m ++ [request]; renders := renders m |}.

(** The machine when the read loop starts: the request has left and the two
    variables have been declared. *)
Definition opened (request : Request) (m : Machine) : Machine :=
  {| ui := ui m; aiResponseText := []; firstChunk := true;
     requests := requests m ++ [request]; renders := renders m |}.

(** The machine after the outer [catch], which runs when the reader has
    failed. *)
Definition closing (ending : option Exn) (m : Machine) : Machine :=
  match ending with
  | Some e => snd (report_failure e m)
  | None => m
  end.

(** A response with status [st] whose body delivers the given chunks and
    then ends ([None]) or fails ([Some e]). *)
Definition stream_of (st : N) (delivered : list jsstring)
           (ending : option Exn) : Answer :=
  Resolves {| status := st;
              body := Some {| chunks := delivered; failure := ending |} |}.

(** From [m] to [m'] the loading flag has not been set: it has the value it
    had, and so has every state rendered on the way. *)
Definition same_loading (m m' : Machine) : Prop :=
  isLoading (ui m') = isLoading (ui m)
  /\ exists extra,
       renders m' = renders m ++ extra
       /\ Forall (fun s => isLoading s = isLoading (ui m)) extra.

(** An input of white space only. *)
Definition blank : State :=
  {| messages := []; inputText := str "  " ++ [160%N; 9%N];
     isListening := false; ttsEnabled := false; isLoading := false;
     currentModel := str "llama3.2"; isSettingsOpen := false |}.

(** The text a line adds to the reply: the content delta of the fragment it
    decodes to, nothing when it has none or does not decode. *)
Definition delta_of (line : jsstring) : jsstring :=
  match decode line with
  | Normal (Content d) => d
  | _ => []
  end.

(** The content deltas of a list of lines, concatenated in order. *)
Definition reply_text (lines : list jsstring) : jsstring :=
  List.concat (map delta_of lines).

(** ** Chunkings *)

(** A chunk that ends where a line ends: it is empty, or its last code unit
    is a line feed. *)
Definition ends_line (chunk : jsstring) : bool :=
  match rev chunk with
  | [] => true
  | c :: _ => (c =? LF)%N
  end.

(** A chunking that cuts the text between lines only: every chunk but the
    last ends where a line ends. *)
Fixpoint line_aligned (delivered : list jsstring) : bool :=
  match delivered with
  | [] => true
  | chunk :: rest =>
      match rest with
      | [] => true
      | _ :: _ => ends_line chunk && line_aligned rest
      end
  end.

(** One line of the wire delivered whole, and the same line delivered in
    two chunks that cut it in the middle. *)
Definition delivered_whole : list jsstring :=
  [wire "{'message':{'content':'Hi'}}" ++ [LF]].

Definition delivered_in_halves : list jsstring :=
  [wire "{'message':{'con"; wire "tent':'Hi'}}" ++ [LF]].

(** Two lines delivered in one chunk, and one line per chunk. *)
Definition two_lines_together : list jsstring :=
  [wire "{'message':{'content':'Hel'}}" ++ [LF]
   ++ wire "{'message':{'content':'lo'}}" ++ [LF]].

Definition two_lines_apart : list jsstring :=
  [wire "{'message':{'content':'Hel'}}" ++ [LF];
   wire "{'message':{'content':'lo'}}" ++ [LF]].

(** ** Recognising a diagnostic *)

Fixpoint begins_with (s prefix : jsstring) : bool :=
  match prefix, s with
  | [], _ => true
  | p :: prefix', c :: s' => (c =? p)%N && begins_with s' prefix'
  | _ :: _, [] => false
  end.

(** A message of the AI whose text opens as the message of the inner
    [catch] does, whatever the engine says about the error after that. *)
Definition is_line_notice (msg : Message) : bool :=
  match sender msg with
  | ai => begins_with (text msg) (str "Error processing response: ")
  | user => false
  end.

(** One chunk with a malformed line between two content lines. *)
Definition reply_with_a_bad_line : list jsstring :=
  [wire "{'message':{'content':'a'}}" ++ [LF]
   ++ wire "not-json" ++ [LF]
   ++ wire "{'message':{'content':'b'}}" ++ [LF]].

(** The line with which Ollama closes a stream. *)
Definition closing_line : jsstring :=
  wire "{'model':'llama3.2','message':{'role':'assistant','content':''},'done':true}".

End Home.


(* ===================================================================== *)
(** * The rest of the page: what is shown and what is spoken *)
(* ===================================================================== *)

Module Page.
Import JS Net Home.

(** The cells of the component that [sendMessage] has no setter for. *)
Definition bystanders (s : State) : bool * bool * jsstring * bool :=
  (isListening s, ttsEnabled s, currentModel s, isSettingsOpen s).

(** The condition of the Thinking indicator:
    [isLoading && messages[messages.length - 1]?.sender === 'user']. *)
Definition thinking (s : State) : bool :=
  isLoading s &&
  match last_sender (messages s) with
  | Some user => true
  | _ => false
  end.

(** From [m] to [m'] every state rendered has a message of the AI in last
    position. *)
Definition shows_the_ai (m m' : Machine) : Prop :=
  exists extra,
    renders m' = renders m ++ extra
    /\ Forall (fun s => last_sender (messages s) = Some ai) extra.

(** A state of the grammar automaton that holds no [undefined] result. *)
Definition defined_so_far (st : Expect) : Prop :=
  match st with
  | EEnd v => v <> JUndefined
  | _ => True
  end.

(** ** Speech synthesis *)

(** The two members of a [SpeechSynthesisVoice] the page looks at. *)
Record Voice := { voice_lang : jsstring; voice_name : jsstring }.

Fixpoint starts_with (s prefix : jsstring) : bool :=
  match prefix, s with
  | [], _ => true
  | p :: prefix', c :: s' => (c =? p)%N && starts_with s' prefix'
  | _ :: _, [] => false
  end.

(** [s.includes(part)] *)
Fixpoint includes (s part : jsstring) : bool :=
  starts_with s part ||
  match s with
  | [] => false
  | _ :: s' => includes s' part
  end.

Definition is_en_US (v : Voice) : bool := includes (voice_lang v) (str "en-US").

Definition is_female_en_US (v : Voice) : bool :=
  includes (voice_lang v) (str "en-US") && includes (voice_name v) (str "Female").

(** [voices.find(..) || voices.find(..) || voices[0]] *)
Definition preferredVoice (voices : list Voice) : option Voice :=
  match find is_female_en_US voices with
  | Some v => Some v
  | None =>
      match find is_en_US voices with
      | Some v => Some v
      | None => nth_error voices 0
      end
  end.

(** What is handed to [speechSynthesis.speak]. *)
Record Utterance := {
  utterance_text : jsstring;
  utterance_voice : option Voice;   (* left unset when no voice is found *)
  utterance_rate : Number;
  utterance_pitch : Number
}.

(** The literal [1.0]. *)
Definition one : Number := binary64_of_decimal false 10 (-1).

(** [speakText(text)] in a render where the TTS toggle is [enabled];
    [synthesis] is [None] when the window has no [speechSynthesis], and
    holds what [getVoices()] returns otherwise.  The result lists what is
    spoken. *)
Definition speakText (enabled : bool) (synthesis : option (list Voice))
           (text : jsstring) : list Utterance :=
  if negb enabled then []
  else
    match synthesis with
    | Some voices =>
        [{| utterance_text := text;
            utterance_voice := preferredVoice voices;
            utterance_rate := one;
            utterance_pitch := one |}]
    | None => []
    end.

(** The effect on [messages, isLoading, ttsEnabled], run on state [s]. *)
Definition tts_effect (synthesis : option (list Voice)) (s : State)
  : list Utterance :=
  let lastMessage :=
    at_index (messages s) (Z.of_nat (List.length (messages s)) - 1)%Z in
  match lastMessage with
  | Some {| sender := ai; text := t |} =>
      if negb (isLoading s) then speakText (ttsEnabled s) synthesis t else []
  | _ => []
  end.

(** Two installed voices for the examples. *)
Definition voice_fr : Voice :=
  {| voice_lang := str "fr-FR"; voice_name := str "Amelie" |}.
Definition voice_en : Voice :=
  {| voice_lang := str "en-US"; voice_name := str "Alex" |}.
Definition voice_en_female : Voice :=
  {| voice_lang := str "en-US"; voice_name := str "Google US English Female" |}.

(** A state like [greeting] with the TTS toggle on. *)
Definition greeting_aloud : State :=
  {| messages := []; inputText := str "hi"; isListening := false;
     ttsEnabled := true; isLoading := false;
     currentModel := str "llama3.2"; isSettingsOpen := false |}.

(** The input's [onChange]: [setInputText(e.target.value)]. *)
Definition typing (value : jsstring) (s : State) : State :=
  {| messages := messages s; inputText := value;
     isListening := isListening s; ttsEnabled := ttsEnabled s;
     isLoading := isLoading s; currentModel := currentModel s;
     isSettingsOpen := isSettingsOpen s |}.

(** An idle state with a transcript that ends with a reply. *)
Definition interleaved_idle : State :=
  {| messages := [ {| sender := user; text := str "hi" |};
                   {| sender := ai; text := str "Hello" |} ];
     inputText := str "again"; isListening := false; ttsEnabled := true;
     isLoading := false; currentModel := str "llama3.2";
     isSettingsOpen := false |}.

End Page.

(* ===================================================================== *)
(** * Reading a JSON body *)
(* ===================================================================== *)

Module Body.
Import JS Net.

(** [await response.json()]: the whole body is read and parsed.  A missing
    body reads as the empty text, which [JSON.parse] rejects; a read that
    fails rejects with its error. *)
Definition json (r : Response) : Completion JValue :=
  match body r with
  | None => JSON_parse []
  | Some reader =>
      match failure reader with
      | Some e => Throw e
      | None => JSON_parse (List.concat (chunks reader))
      end
  end.

(** [await response.blob()]: the whole body is read. *)
Definition blob (r : Response) : Completion unit :=
  match body r with
  | None => Normal tt
  | Some reader =>
      match failure reader with
      | Some e => Throw e
      | None => Normal tt
      end
  end.

(** [v.name] for a name that is not an array index, [length], or a property
    of a built-in prototype ([models] and [status] below): only an object
    can have it, as an own property. *)
Definition member (v : JValue) (name : jsstring) : Completion JValue :=
  match v with
  | JUndefined | JNull => Throw TypeError
  | JObject properties =>
      Normal match own_property properties name with
             | Some x => x
             | None => JUndefined
             end
  | _ => Normal JUndefined
  end.

(** A response with status [st] whose body is the text [t], delivered in
    one piece. *)
Definition replying (st : N) (t : jsstring) : Answer :=
  Resolves {| status := st;
              body := Some {| chunks := [t]; failure := None |} |}.

End Body.

(* ===================================================================== *)
(** * The settings panel [Settings] *)
(* ===================================================================== *)

Module SettingsPanel.
Import JS Net Body.

(** The three [useState] cells of the panel.  [models] holds whatever the
    server sent under that name. *)
Record Panel := {
  models : JValue;
  isLoading : bool;
  error : option jsstring
}.

(** The panel when it is mounted. *)
Definition mounted : Panel :=
  {| models := JArray []; isLoading := false; error := None |}.

Definition setModels (v : JValue) (p : Panel) : Panel :=
  {| models := v; isLoading := isLoading p; error := error p |}.

Definition setIsLoading (v : bool) (p : Panel) : Panel :=
  {| models := models p; isLoading := v; error := error p |}.

Definition setError (v : option jsstring) (p : Panel) : Panel :=
  {| models := models p; isLoading := isLoading p; error := v |}.

Definition failed_to_fetch : jsstring :=
  str "Failed to fetch available models. Make sure Ollama is running.".

(** [data.models || []] *)
Definition models_or_none (data : JValue) : Completion JValue :=
  match member data (str "models") with
  | Throw e => Throw e
  | Normal v => Normal (if ToBoolean v then v else JArray [])
  end.

(** The body of the [try]: the value handed to [setModels], or the
    exception that reaches the [catch]. *)
Definition listing (net : Answer) : Completion JValue :=
  match net with
  | Rejects e => Throw e
  | Resolves response =>
      if negb (ok response) then
        Throw (Error (str "HTTP error! status: " ++ decimal (status response)))
      else
        match json response with
        | Throw e => Throw e
        | Normal data => models_or_none data
        end
  end.

(** [fetchModels]: the states of the panel after each of its four state
    setters, in order. *)
Definition fetchModels (net : Answer) (p : Panel) : list Panel :=
  let p1 := setIsLoading true p in
  let p2 := setError None p1 in
  let p3 := match listing net with
            | Normal v => setModels v p2
            | Throw _ => setError (Some failed_to_fetch) p2
            end in
  let p4 := setIsLoading false p3 in
  [p1; p2; p3; p4].

(** The panel after [fetchModels]. *)
Definition after_fetch (net : Answer) (p : Panel) : Panel :=
  last (fetchModels net p) p.

(** [models.length === 0] *)
Definition has_length_zero (v : JValue) : bool :=
  match v with
  | JArray [] => true
  | JString [] => true
  | JObject properties =>
      match own_property properties (str "length") with
      | Some (JNumber (NZero _)) => true
      | _ => false
      end
  | _ => false
  end.

(** Whether React accepts [v] as a child: a string or a number is shown,
    a boolean or [null] shows nothing, an array is accepted when each of
    its elements is, and a plain object is refused with an error. *)
Fixpoint renderable (v : JValue) : bool :=
  match v with
  | JObject _ => false
  | JArray elements =>
      (fix every (l : list JValue) : bool :=
         match l with
         | [] => true
         | x :: l' => renderable x && every l'
         end) elements
  | _ => true
  end.

(** Whether the callback of [models.map] renders one item: [model.id] is
    read (which throws on [null]) and coerced to a string for the key, and
    [model.name], [model.size] and [model.modified] are children. *)
Definition item_renders (model : JValue) : bool :=
  match model with
  | JUndefined | JNull => false
  | JObject properties =>
      match own_property properties (str "id") with
      | Some k => match ToString k with Normal _ => true | Throw _ => false end
      | None => true
      end
      && match own_property properties (str "name") with
         | Some v => renderable v
         | None => true
         end
      && match own_property properties (str "size") with
         | Some v => renderable v
         | None => true
         end
      && match own_property properties (str "modified") with
         | Some v => renderable v
         | None => true
         end
  | _ => true
  end.

(** What rendering the panel comes to. *)
Inductive View :=
| Hidden                          (* [if (!isOpen) return null] *)
| LoadingModels
| FetchFailed (message : jsstring) (* the error and the Try Again button *)
| NoModels
| ModelList (listed : JValue)
| RenderThrows.                   (* [models.map] is not a function, an item
                                     is [null], or a member cannot be shown *)

Definition view (isOpen : bool) (p : Panel) : View :=
  if negb isOpen then Hidden
  else if isLoading p then LoadingModels
  else
    match error p with
    | Some (c :: message) => FetchFailed (c :: message)
    | _ =>
        if has_length_zero (models p) then NoModels
        else
          match models p with
          | JArray items =>
              if forallb item_renders items then ModelList (models p)
              else RenderThrows
          | _ => RenderThrows
          end
    end.

(** A panel that holds a list from an earlier fetch. *)
Definition stocked : Panel :=
  {| models := JArray [JObject [(str "name", JString (str "llama3.2"))]];
     isLoading := false; error := None |}.

End SettingsPanel.

(* ===================================================================== *)
(** * The TTS service of [services/tts.ts] *)
(* ===================================================================== *)

Module TTSService.
Import JS Net Body.

(** [interface TTSContext] *)
Record TTSContext := {
  context_text : jsstring;
  context_speaker : Number;
  context_audio : option (list Number)
}.

(** [interface TTSOptions]; [None] is a member left out. *)
Record TTSOptions := {
  text : jsstring;
  speaker : option Number;
  temperature : option Number;
  top_k : option Number;
  max_audio_length_ms : option Number;
  context : option (list TTSContext)
}.

(** The object handed to [JSON.stringify] for the synthesis request. *)
Record Synthesis := {
  synthesis_text : jsstring;
  synthesis_speaker : Number;
  synthesis_temperature : Number;
  synthesis_top_k : Number;
  synthesis_max_audio_length_ms : Number;
  synthesis_context : list TTSContext
}.

(** The requests the service sends to the TTS server. *)
Inductive Call :=
| HealthCheck                    (* GET /health *)
| Synthesize (request : Synthesis). (* POST /tts *)

(** What the world does around one call of the service: what the server
    answers to each request, the URL the browser makes for the audio, and
    whether the audio element starts playing. *)
Inductive Playback :=
| Plays                (* [onplay] fires *)
| PlayFails            (* [onerror] fires *)
| NoAudio (e : Exn)    (* [new Audio] or [play] throws *)
| Stalls.              (* neither event ever fires *)

Record World := {
  health : Answer;
  synthesis : Answer;
  object_url : jsstring;
  playback : Playback
}.

(** A member with its default: the default applies when the member is left
    out. *)
Definition or_default {A} (given : option A) (default : A) : A :=
  match given with
  | Some x => x
  | None => default
  end.

(** [isTTSServerReady()] *)
Definition isTTSServerReady (w : World) : bool :=
  match health w with
  | Rejects _ => false
  | Resolves response =>
      match json response with
      | Throw _ => false
      | Normal data =>
          match member data (str "status") with
          | Throw _ => false
          | Normal (JString s) => jsstring_eqb s (str "ready")
          | Normal _ => false
          end
      end
  end.

Definition synthesis_request (options : TTSOptions) : Synthesis :=
  {| synthesis_text := text options;
     synthesis_speaker := or_default (speaker options) (NZero false);
     synthesis_temperature :=
       or_default (temperature options) (binary64_of_decimal false 8 (-1));
     synthesis_top_k :=
       or_default (top_k options) (binary64_of_decimal false 50 0);
     synthesis_max_audio_length_ms :=
       or_default (max_audio_length_ms options)
                  (binary64_of_decimal false 10000 0);
     synthesis_context := or_default (context options) [] |}.

(** [textToSpeech(options)]: the URL of the audio or [null], and the
    requests sent on the way. *)
Definition textToSpeech (options : TTSOptions) (w : World)
  : option jsstring * list Call :=
  if negb (ToBoolean (JString (trim (text options)))) then (None, [])
  else if negb (isTTSServerReady w) then (None, [HealthCheck])
  else
    let sent := [HealthCheck; Synthesize (synthesis_request options)] in
    match synthesis w with
    | Rejects _ => (None, sent)
    | Resolves response =>
        if negb (ok response) then (None, sent)
        else
          match blob response with
          | Throw _ => (None, sent)
          | Normal _ => (Some (object_url w), sent)
          end
    end.

(** [playAudio(audioUrl)]: whether the promise resolves, rejects, or stays
    pending. *)
Definition playAudio (w : World) : option bool :=
  match playback w with
  | Plays => Some true
  | PlayFails => Some false
  | NoAudio _ => Some false
  | Stalls => None
  end.

(** [speak(options)]: the boolean the promise resolves to, [None] when it
    stays pending. *)
Definition speak (options : TTSOptions) (w : World) : option bool :=
  match fst (textToSpeech options w) with
  | None => Some false
  | Some audioUrl =>
      if negb (ToBoolean (JString audioUrl)) then Some false
      else
        match playAudio w with
        | Some true => Some true
        | Some false => Some false
        | None => None
        end
  end.

(** Options with the text alone. *)
Definition saying (t : jsstring) : TTSOptions :=
  {| text := t; speaker := None; temperature := None; top_k := None;
     max_audio_length_ms := None; context := None |}.

(** A world in which the server is ready, answers the synthesis with a
    body, and the audio plays. *)
Definition fair_weather : World :=
  {| health := replying 200 (Home.wire "{'status':'ready'}");
     synthesis := replying 200 (str "RIFF");
     object_url := str "blob:http://localhost:3000/1";
     playback := Plays |}.

(** A world in which the health request is answered with status 500 and a
    body that says ready. *)
Definition ready_despite_status : World :=
  {| health := replying 500 (Home.wire "{'status':'ready'}");
     synthesis := replying 200 (str "RIFF");
     object_url := str "blob:http://localhost:3000/1";
     playback := Plays |}.

End TTSService.

(* ===================================================================== *)
(** * The read loop when React runs the updaters later *)
(* ===================================================================== *)

(** The updaters that the content branch hands to [setMessages] mention the
    variable [aiResponseText]: they read it when React runs them, which may
    be at the call or at a later render, after more content has been added.
    [Home] runs every updater at the call.  This module keeps the updaters
    in a queue and lets a schedule say when React runs it, so that a
    property can be stated for every moment at which the variable may be
    read. *)

Module Deferred.
Import JS Net Home.

(** The three updaters of the read loop. *)
Inductive Updater :=
| AppendReply                      (* [prev => [...prev, {sender, text}]] *)
| UpdateLast                       (* the updater of the [else] branch *)
| AppendNotice (notice : Message). (* the updater of the inner [catch] *)

(** Running an updater when the variable holds [variable]. *)
Definition run_updater (u : Updater) (variable : jsstring)
           (prev : list Message) : list Message :=
  match u with
  | AppendReply => append_reply variable prev
  | UpdateLast => update_last variable prev
  | AppendNotice notice => prev ++ [notice]
  end.

Record Pending := {
  shown : list Message;    (* the transcript React has computed *)
  queue : list Updater;    (* updaters handed over and not yet run *)
  running : jsstring;      (* [let aiResponseText] *)
  unopened : bool          (* [let firstChunk] *)
}.

(** React runs the queue, in order, with the variable as it is now. *)
Definition render (p : Pending) : Pending :=
  {| shown := fold_left (fun prev u => run_updater u (running p) prev)
                        (queue p) (shown p);
     queue := [];
     running := running p;
     unopened := unopened p |}.

Definition hand_over (u : Updater) (p : Pending) : Pending :=
  {| shown := shown p; queue := queue p ++ [u];
     running := running p; unopened := unopened p |}.

(** One candidate line: the variables change at once, the updater
    waits. *)
Definition line_late (line : jsstring) (p : Pending) : Pending :=
  match decode line with
  | Throw e => hand_over (AppendNotice (line_notice e)) p
  | Normal NoContent => p
  | Normal (Content d) =>
      hand_over (if unopened p then AppendReply else UpdateLast)
        {| shown := shown p; queue := queue p;
           running := running p ++ d; unopened := false |}
  end.

(** The lines in order.  The schedule says, line after line, whether React
    runs the queue once the line has been dealt with; where the schedule
    says nothing, React waits. *)
Fixpoint lines_late (schedule : list bool) (lines : list jsstring)
         (p : Pending) : Pending :=
  match lines with
  | [] => p
  | line :: rest =>
      match schedule with
      | true :: later => lines_late later rest (render (line_late line p))
      | false :: later => lines_late later rest (line_late line p)
      | [] => lines_late [] rest (line_late line p)
      end
  end.

(** The transcript once the lines are read and React has caught up. *)
Definition settled (schedule : list bool) (lines : list jsstring)
           (p : Pending) : list Message :=
  shown (render (lines_late schedule lines p)).

(** A machine of [Home] with nothing left to run. *)
Definition caught_up (m : Machine) : Pending :=
  {| shown := messages (ui m); queue := [];
     running := aiResponseText m; unopened := firstChunk m |}.

(** The read loop about to start for what was sent from [s]: the message
    of the user is in the transcript and the two variables are fresh. *)
Definition about_to_read (s : State) : Pending :=
  caught_up (opened (chat_request s (messages s ++ [newUserMessage s]))
                    (entered s)).

End Deferred.

(* ===================================================================== *)
(** * Properties *)
(* ===================================================================== *)

Module Props.
Import JS Net Home.
Local Open Scope js_scope.

(** ** Lines never escape the inner [try] *)

Lemma each_line_stages line m :
  each_line line m
  = try_catch (f <- eval (decode line) ;; accumulate f) report_line m.
Proof.
  unfold each_line, try_catch, try_line, decode, bind, eval.
  destruct (JSON_parse line) as [parsedLine|e]; [|reflexivity].
  destruct (message_and_content parsedLine) as [condition|e] eqn:Hc;
    [|reflexivity].
  destruct (ToBoolean condition) eqn:Ht.
  - destruct (message_content parsedLine) as [delta|e] eqn:Hd; [|reflexivity].
    unfold string_plus, read.
    destruct (ToString delta) as [d|e]; [|reflexivity].
    cbn.
    assert (Hg : exists x, Get parsedLine key_done = Normal x).
    { unfold message_content in Hd.
      destruct parsedLine; cbn in *; try discriminate; eauto. }
    destruct Hg as [x Hx]. rewrite Hx.
    destruct (firstChunk m); reflexivity.
  - cbn.
    assert (Hg : exists x, Get parsedLine key_done = Normal x).
    { unfold message_and_content in Hc.
      destruct parsedLine; cbn in *; try discriminate; eauto. }
    destruct Hg as [x Hx]. rewrite Hx. reflexivity.
Qed.

Lemma each_line_normal line m : each_line line m = (Normal tt, run_line line m).
Proof.
  unfold run_line. rewrite each_line_stages.
  unfold try_catch, bind, eval.
  destruct (decode line) as [[|d]|e]; cbn; try reflexivity.
  destruct (firstChunk m); reflexivity.
Qed.

Lemma run_line_decode line m :
  run_line line m
  = match decode line with
    | Throw e => snd (report_line e m)
    | Normal f => snd (accumulate f m)
    end.
Proof.
  unfold run_line. rewrite each_line_stages.
  unfold try_catch, bind, eval.
  destruct (decode line) as [[|d]|e]; cbn; try reflexivity.
  destruct (firstChunk m); reflexivity.
Qed.

Lemma for_of_lines lines : forall m,
  for_of lines each_line m = (Normal tt, run_lines lines m).
Proof.
  unfold run_lines.
  induction lines as [|l lines IH]; intros m; cbn; [reflexivity|].
  unfold bind. rewrite each_line_normal. apply IH.
Qed.

Lemma run_lines_nil m : run_lines [] m = m.
Proof. reflexivity. Qed.

Lemma run_lines_cons l lines m :
  run_lines (l :: lines) m = run_lines lines (run_line l m).
Proof.
  unfold run_lines at 1. cbn. unfold bind.
  rewrite each_line_normal, for_of_lines. reflexivity.
Qed.

Lemma run_lines_app a : forall b m,
  run_lines (a ++ b) m = run_lines b (run_lines a m).
Proof.
  induction a as [|l a IH]; intros b m; cbn; [reflexivity|].
  rewrite !run_lines_cons. apply IH.
Qed.

(** The loop over the reader runs every candidate line of every chunk,
    and completes as the reader does. *)
Lemma read_loop_lines delivered ending : forall m,
  read_loop delivered ending m
  = (match ending with Some e => Throw e | None => Normal tt end,
     run_lines (all_lines delivered) m).
Proof.
  induction delivered as [|c delivered IH]; intros m; cbn.
  - destruct ending; reflexivity.
  - unfold bind. rewrite for_of_lines, IH.
    unfold all_lines. cbn. rewrite run_lines_app. reflexivity.
Qed.

(** ** What one line does *)

Lemma at_index_last (init : list Message) x :
  at_index (init ++ [x]) (Z.of_nat (List.length (init ++ [x])) - 1)%Z = Some x.
Proof.
  unfold at_index. rewrite length_app. cbn [List.length].
  destruct (Z.ltb_spec (Z.of_nat (List.length init + 1) - 1) 0); [lia|].
  replace (Z.to_nat (Z.of_nat (List.length init + 1) - 1))
    with (List.length init) by lia.
  rewrite nth_error_app2 by lia. rewrite Nat.sub_diag. reflexivity.
Qed.

Lemma replace_at_last (init : list Message) x y :
  replace_at (init ++ [x]) (List.length init) y = init ++ [y].
Proof. induction init as [|a init IH]; cbn; [reflexivity|]. now rewrite IH. Qed.

Lemma update_last_nil reply :
  update_last reply [] = [{| sender := ai; text := reply |}].
Proof. reflexivity. Qed.

Lemma update_last_snoc reply init x :
  update_last reply (init ++ [x])
  = match sender x with
    | ai => init ++ [{| sender := ai; text := reply |}]
    | user => init ++ [x; {| sender := ai; text := reply |}]
    end.
Proof.
  unfold update_last. rewrite at_index_last.
  destruct x as [[|] t]; cbn [sender].
  - rewrite <- app_assoc. reflexivity.
  - rewrite length_app. cbn [List.length].
    replace (Z.to_nat (Z.of_nat (List.length init + 1) - 1))
      with (List.length init) by lia.
    apply replace_at_last.
Qed.

Lemma last_sender_snoc init x : last_sender (init ++ [x]) = Some (sender x).
Proof. unfold last_sender. now rewrite at_index_last. Qed.

Lemma update_last_appends reply prev :
  last_sender prev <> Some ai ->
  update_last reply prev = prev ++ [{| sender := ai; text := reply |}].
Proof.
  destruct prev as [|a prev'] using rev_ind; intros H; [reflexivity|].
  rewrite last_sender_snoc in H. rewrite update_last_snoc.
  destruct (sender a); [|congruence]. now rewrite <- app_assoc.
Qed.

(** No updater touches a message of the user. *)
Lemma update_last_keeps_user reply prev i msg :
  nth_error prev i = Some msg -> sender msg = user ->
  nth_error (update_last reply prev) i = Some msg.
Proof.
  intros Hi Hu.
  destruct prev as [|a prev' _] using rev_ind.
  - destruct i; discriminate.
  - rewrite update_last_snoc.
    assert (Hlt : i < List.length (prev' ++ [a]))
      by (apply nth_error_Some; congruence).
    rewrite length_app in Hlt. cbn in Hlt.
    destruct (Nat.eq_dec i (List.length prev')) as [->|Hne].
    + rewrite nth_error_app2 in Hi by lia.
      rewrite Nat.sub_diag in Hi. cbn in Hi. injection Hi as <-.
      rewrite Hu. rewrite nth_error_app2 by lia.
      rewrite Nat.sub_diag. reflexivity.
    + rewrite nth_error_app1 in Hi by lia.
      destruct (sender a); rewrite nth_error_app1 by lia; exact Hi.
Qed.

Lemma append_keeps (prev extra : list Message) i msg :
  nth_error prev i = Some msg -> nth_error (prev ++ extra) i = Some msg.
Proof.
  intros Hi. rewrite nth_error_app1; [exact Hi|].
  apply nth_error_Some. congruence.
Qed.

Lemma content_is_guarded parsedLine c :
  message_content parsedLine = Normal c -> ToBoolean c = true ->
  message_and_content parsedLine = Normal c.
Proof.
  unfold message_content, message_and_content.
  destruct (Get parsedLine key_message) as [message|e]; [|discriminate].
  intros Hc Ht.
  destruct (ToBoolean message) eqn:Hm; [exact Hc|].
  destruct message as [| |b|x|t|l|ps]; cbn in Hc, Hm;
    try discriminate; injection Hc as <-; discriminate.
Qed.

Lemma decode_content line parsedLine c d :
  JSON_parse line = Normal parsedLine ->
  message_content parsedLine = Normal c ->
  ToBoolean c = true ->
  ToString c = Normal d ->
  decode line = Normal (Content d).
Proof.
  intros Hp Hc Ht Hs. unfold decode.
  rewrite Hp, (content_is_guarded _ Hc Ht), Ht, Hc, Hs. reflexivity.
Qed.

(** A line of the protocol with a non-empty string for content decodes to
    that string. *)
Lemma decode_string_content line properties inner d :
  JSON_parse line = Normal (JObject properties) ->
  own_property properties (key_name key_message) = Some (JObject inner) ->
  own_property inner (key_name key_content) = Some (JString d) ->
  d <> [] ->
  decode line = Normal (Content d).
Proof.
  intros Hp Hm Hc Hd.
  apply (@decode_content line (JObject properties) (JString d) d Hp).
  - unfold message_content. cbn [Get]. rewrite Hm. cbn [Get]. now rewrite Hc.
  - destruct d; [congruence|reflexivity].
  - reflexivity.
Qed.

Lemma decode_malformed line e :
  JSON_parse line = Throw e -> decode line = Throw e.
Proof. intros H. unfold decode. now rewrite H. Qed.

Lemma decode_no_message line properties :
  JSON_parse line = Normal (JObject properties) ->
  own_property properties (key_name key_message) = None ->
  decode line = Normal NoContent.
Proof.
  intros Hp Ho. unfold decode. rewrite Hp.
  unfold message_and_content. cbn [Get]. rewrite Ho. reflexivity.
Qed.

Lemma accumulate_text d m :
  aiResponseText (snd (accumulate (Content d) m)) = aiResponseText m ++ d.
Proof. cbn. unfold bind, read. cbn. destruct (firstChunk m); reflexivity. Qed.

Lemma accumulate_first d m :
  firstChunk m = true ->
  messages (ui (snd (accumulate (Content d) m)))
  = messages (ui m) ++ [{| sender := ai; text := aiResponseText m ++ d |}]
  /\ firstChunk (snd (accumulate (Content d) m)) = false.
Proof. intros H. cbn. unfold bind, read. cbn. rewrite H. cbn. auto. Qed.

Lemma accumulate_later d m :
  firstChunk m = false ->
  messages (ui (snd (accumulate (Content d) m)))
  = update_last (aiResponseText m ++ d) (messages (ui m))
  /\ firstChunk (snd (accumulate (Content d) m)) = false.
Proof. intros H. cbn. unfold bind, read. cbn. rewrite H. cbn. auto. Qed.

(** ** The claims about a single line *)

(** C9.  A line that is processed without an exception and carries no
    content that passes the guard (the closing fragment with its done
    marker, with or without a [message] member, with an empty content or
    none) changes nothing: the transcript, the running text, the
    first-chunk flag and every other part of the machine are as before, no
    setter is called, and the line completes normally. *)
Theorem C9_done_only_is_a_frame line m :
  decode line = Normal NoContent ->
  each_line line m = (Normal tt, m).
Proof.
  intros H. rewrite each_line_normal, run_line_decode, H. reflexivity.
Qed.

Lemma C9_done_only_witness :
  each_line closing_line interleaved = (Normal tt, interleaved).
Proof.
  apply (@C9_done_only_is_a_frame closing_line interleaved).
  vm_compute. reflexivity.
Defined.




(** C5.  When the last message of the transcript is not the AI's (the
    transcript is empty or ends with a message of the user), a fragment
    whose content passes the guard appends a new message of the AI; and
    whatever the line and the transcript are, every message of the user
    stays where it is with the text it has. *)
Theorem C5_user_messages_are_never_overwritten line m :
  (forall parsedLine c d,
      JSON_parse line = Normal parsedLine ->
      message_content parsedLine = Normal c ->
      ToBoolean c = true ->
      ToString c = Normal d ->
      last_sender (messages (ui m)) <> Some ai ->
      messages (ui (run_line line m))
      = messages (ui m) ++ [{| sender := ai; text := aiResponseText m ++ d |}])
  /\ (forall i msg,
         nth_error (messages (ui m)) i = Some msg ->
         sender msg = user ->
         nth_error (messages (ui (run_line line m))) i = Some msg).
Proof.
  split.
  - intros parsedLine c d Hp Hc Ht Hs Hlast.
    rewrite run_line_decode, (decode_content _ Hp Hc Ht Hs).
    destruct (firstChunk m) eqn:Hf.
    + apply (accumulate_first d m Hf).
    + rewrite (proj1 (accumulate_later d m Hf)).
      now apply update_last_appends.
  - intros i msg Hi Hu. rewrite run_line_decode.
    destruct (decode line) as [[|d]|e].
    + exact Hi.
    + destruct (firstChunk m) eqn:Hf.
      * rewrite (proj1 (accumulate_first d m Hf)). now apply append_keeps.
      * rewrite (proj1 (accumulate_later d m Hf)).
        now apply update_last_keeps_user.
    + cbn. now apply append_keeps.
Qed.

Lemma C5_interleaving_witness :
  messages (ui (run_line (wire "{'message':{'content':'lo'}}") interleaved))
  = [ {| sender := user; text := str "hi" |};
      {| sender := ai; text := str "Hel" |};
      {| sender := user; text := str "wait" |};
      {| sender := ai; text := str "Hello" |} ]
  /\ nth_error
       (messages (ui (run_line (wire "{'message':{'content':'lo'}}") interleaved)))
       2
     = Some {| sender := user; text := str "wait" |}.
Proof.
  destruct (C5_user_messages_are_never_overwritten
              (wire "{'message':{'content':'lo'}}") interleaved) as [Happend Hkeep].
  split.
  - apply (Happend
             (JObject [(str "message", JObject [(str "content", JString (str "lo"))])])
             (JString (str "lo")) (str "lo"));
      vm_compute; congruence.
  - apply (Hkeep 2%nat); reflexivity.
Defined.

(** ** The claims about the stream *)

Lemma reply_text_cons l lines :
  reply_text (l :: lines) = delta_of l ++ reply_text lines.
Proof. reflexivity. Qed.

(** The running text after any list of lines is the text before them
    followed by their content deltas: a line that fails adds nothing and
    takes nothing away. *)
Lemma running_text_all_lines lines : forall m,
  aiResponseText (run_lines lines m) = aiResponseText m ++ reply_text lines.
Proof.
  induction lines as [|l lines IH]; intros m.
  - rewrite run_lines_nil. unfold reply_text. cbn. now rewrite app_nil_r.
  - rewrite run_lines_cons, IH, reply_text_cons, app_assoc. f_equal.
    rewrite run_line_decode. unfold delta_of.
    destruct (decode l) as [[|d]|e].
    + cbn. now rewrite app_nil_r.
    + apply accumulate_text.
    + cbn. now rewrite app_nil_r.
Qed.

(** C4.  A line that [JSON.parse] rejects does not stop the stream: the
    lines before it have been run, the line itself only adds its diagnostic
    message, every line after it, in the same chunk or a later one, is run
    in turn, and the loop completes as the reader does.  The running text
    at the end holds the content deltas of the lines before and of the
    lines after the malformed one. *)
Theorem C4_malformed_line_does_not_halt delivered ending m before bad after e :
  all_lines delivered = before ++ bad :: after ->
  JSON_parse bad = Throw e ->
  read_loop delivered ending m
  = (match ending with Some x => Throw x | None => Normal tt end,
     run_lines after (snd (report_line e (run_lines before m))))
  /\ aiResponseText (snd (read_loop delivered ending m))
     = aiResponseText m ++ reply_text before ++ reply_text after.
Proof.
  intros Hl Hbad.
  assert (Hrun : read_loop delivered ending m
                 = (match ending with Some x => Throw x | None => Normal tt end,
                    run_lines after (snd (report_line e (run_lines before m))))).
  { rewrite read_loop_lines, Hl, run_lines_app, run_lines_cons.
    rewrite (run_line_decode bad), (decode_malformed _ Hbad). reflexivity. }
  split; [exact Hrun|].
  rewrite Hrun. cbn [snd]. rewrite running_text_all_lines.
  cbn [report_line setMessages commit snd aiResponseText].
  rewrite running_text_all_lines, app_assoc. reflexivity.
Qed.

Lemma C4_malformed_line_witness :
  read_loop
    [wire "not-json" ++ [LF] ++ wire "{'message':{'content':'o'}}" ++ [LF];
     wire "{'message':{'content':'k'}}" ++ [LF]]
    None (invoke greeting)
  = (Normal tt,
     run_lines [wire "{'message':{'content':'o'}}"; wire "{'message':{'content':'k'}}"]
       (snd (report_line SyntaxError (run_lines [] (invoke greeting)))))
  /\ aiResponseText
       (snd (read_loop
               [wire "not-json" ++ [LF] ++ wire "{'message':{'content':'o'}}" ++ [LF];
                wire "{'message':{'content':'k'}}" ++ [LF]]
               None (invoke greeting)))
     = [] ++ reply_text []
       ++ reply_text [wire "{'message':{'content':'o'}}";
                      wire "{'message':{'content':'k'}}"].
Proof.
  apply (@C4_malformed_line_does_not_halt
           [wire "not-json" ++ [LF] ++ wire "{'message':{'content':'o'}}" ++ [LF];
            wire "{'message':{'content':'k'}}" ++ [LF]]
           None (invoke greeting) [] (wire "not-json")
           [wire "{'message':{'content':'o'}}"; wire "{'message':{'content':'k'}}"]
           SyntaxError);
    vm_compute; reflexivity.
Defined.

(** ** The guard of [sendMessage] *)

Lemma trim_start_blank s :
  Forall (fun c => is_white_space c = true) s -> trim_start s = [].
Proof.
  induction 1 as [|c s Hc _ IH]; cbn; [reflexivity|]. now rewrite Hc.
Qed.

Lemma trim_start_empty s :
  trim_start s = [] -> Forall (fun c => is_white_space c = true) s.
Proof.
  induction s as [|c s IH]; cbn; [constructor|].
  destruct (is_white_space c) eqn:Hc; [|discriminate].
  intros H. constructor; auto.
Qed.

Lemma trim_start_suffix s :
  Forall (fun c => is_white_space c = true) (trim_start s) ->
  Forall (fun c => is_white_space c = true) s.
Proof.
  induction s as [|c s IH]; cbn; [constructor|].
  destruct (is_white_space c) eqn:Hc; [|auto].
  intros H. constructor; auto.
Qed.

Lemma trim_blank s :
  Forall (fun c => is_white_space c = true) s -> trim s = [].
Proof. intros H. unfold trim. now rewrite (trim_start_blank H). Qed.

(** [trim] returns the empty string exactly on the strings made of white
    space. *)
Lemma trim_empty_iff s :
  trim s = [] <-> Forall (fun c => is_white_space c = true) s.
Proof.
  split; [|apply trim_blank].
  unfold trim, trim_end. intros H.
  apply (f_equal (@rev _)) in H. rewrite rev_involutive in H. cbn in H.
  apply trim_start_empty, Forall_rev in H. rewrite rev_involutive in H.
  now apply trim_start_suffix.
Qed.

(** C10.  Called while the input is empty or consists of white space only,
    or while a reply is being awaited, [sendMessage] returns at once:
    the component state (transcript, input text, loading flag and the rest)
    is what it was, no request has been handed to [fetch], and no state
    setter has been called. *)
Theorem C10_guarded_send_is_a_no_op net m :
  Forall (fun c => is_white_space c = true) (inputText (ui m))
  \/ isLoading (ui m) = true ->
  sendMessage net m = (Normal tt, m).
Proof.
  intros H. unfold sendMessage, bind, read.
  destruct H as [H|H].
  - rewrite (trim_blank H). reflexivity.
  - rewrite H, orb_true_r. reflexivity.
Qed.

Lemma C10_guarded_send_witness :
  sendMessage (streaming []) (invoke blank) = (Normal tt, invoke blank).
Proof.
  apply (@C10_guarded_send_is_a_no_op (streaming []) (invoke blank)).
  left. vm_compute. repeat constructor.
Defined.

Lemma guard_open s :
  trim (inputText s) <> [] -> isLoading s = false ->
  negb (ToBoolean (JString (trim (inputText s)))) || isLoading s = false.
Proof.
  intros Ht Hl. rewrite Hl.
  destruct (trim (inputText s)); [congruence|reflexivity].
Qed.

(** ** One send, station by station *)

Lemma sendMessage_open net s :
  trim (inputText s) <> [] -> isLoading s = false ->
  sendMessage net (invoke s)
  = try_finally
      (try_catch (converse s (messages s ++ [newUserMessage s]) net)
                 report_failure)
      (setIsLoading false) (entered s).
Proof.
  intros Ht Hl. unfold sendMessage, bind, read. cbn [ui invoke].
  rewrite (guard_open s Ht Hl). reflexivity.
Qed.

Lemma converse_rejected s um e m :
  try_catch (converse s um (Rejects e)) report_failure m
  = (Normal tt, closing (Some e) (requested (chat_request s um) m)).
Proof. reflexivity. Qed.

Lemma converse_bad_status s um r m :
  ok r = false ->
  try_catch (converse s um (Resolves r)) report_failure m
  = (Normal tt,
     closing (Some (Error (str "HTTP error! status: " ++ decimal (status r))))
             (requested (chat_request s um) m)).
Proof.
  intros Hok. unfold try_catch, converse, bind, fetch. rewrite Hok. reflexivity.
Qed.

Lemma converse_no_body s um r m :
  ok r = true -> body r = None ->
  try_catch (converse s um (Resolves r)) report_failure m
  = (Normal tt,
     closing (Some (Error (str "Response body is null")))
             (requested (chat_request s um) m)).
Proof.
  intros Hok Hb. unfold try_catch, converse, bind, fetch.
  rewrite Hok, Hb. reflexivity.
Qed.

Lemma converse_stream s um r reader m :
  ok r = true -> body r = Some reader ->
  try_catch (converse s um (Resolves r)) report_failure m
  = (Normal tt,
     closing (failure reader)
             (run_lines (all_lines (chunks reader))
                        (opened (chat_request s um) m))).
Proof.
  intros Hok Hb. unfold try_catch, converse, bind, fetch.
  rewrite Hok, Hb. cbn [negb]. unfold assign_aiResponseText, assign_firstChunk.
  cbn [ui aiResponseText firstChunk requests renders].
  rewrite read_loop_lines. unfold opened, closing.
  destruct (failure reader); reflexivity.
Qed.

(** Whatever the network does, the outer [try] with its [catch] completes
    normally. *)
Lemma converse_caught s um net m :
  exists m', try_catch (converse s um net) report_failure m = (Normal tt, m').
Proof.
  destruct net as [e|r].
  - rewrite converse_rejected. eauto.
  - destruct (ok r) eqn:Hok.
    + destruct (body r) as [reader|] eqn:Hb.
      * rewrite (converse_stream _ _ _ _ Hok Hb). eauto.
      * rewrite (converse_no_body _ _ _ _ Hok Hb). eauto.
    + rewrite (converse_bad_status _ _ _ _ Hok). eauto.
Qed.

(** ** The loading flag along a send *)

(** A step that calls no setter. *)
Ltac no_render :=
  split; [reflexivity|];
  exists []; split; [cbn; now rewrite app_nil_r|constructor].

(** A step that calls [setMessages] once. *)
Ltac one_render :=
  split; [reflexivity|];
  eexists; split; [reflexivity|]; constructor; [reflexivity|constructor].

Lemma same_loading_refl m : same_loading m m.
Proof. no_render. Qed.

Lemma same_loading_trans m1 m2 m3 :
  same_loading m1 m2 -> same_loading m2 m3 -> same_loading m1 m3.
Proof.
  intros [H1 (x1 & R1 & F1)] [H2 (x2 & R2 & F2)]. split; [congruence|].
  exists (x1 ++ x2). split.
  - rewrite R2, R1, app_assoc. reflexivity.
  - apply Forall_app. split; [exact F1|].
    rewrite H1 in F2. exact F2.
Qed.

Lemma same_loading_setMessages f m : same_loading m (snd (setMessages f m)).
Proof. one_render. Qed.

Lemma same_loading_accumulate f m : same_loading m (snd (accumulate f m)).
Proof.
  destruct f as [|d]; [apply same_loading_refl|].
  cbn. unfold bind, read. cbn.
  destruct (firstChunk m); cbn; one_render.
Qed.

Lemma same_loading_run_line line m : same_loading m (run_line line m).
Proof.
  rewrite run_line_decode. destruct (decode line) as [f|e].
  - apply same_loading_accumulate.
  - apply same_loading_setMessages.
Qed.

Lemma same_loading_run_lines lines : forall m, same_loading m (run_lines lines m).
Proof.
  induction lines as [|l lines IH]; intros m.
  - apply same_loading_refl.
  - rewrite run_lines_cons.
    eapply same_loading_trans; [apply same_loading_run_line|apply IH].
Qed.

Lemma same_loading_closing ending m : same_loading m (closing ending m).
Proof.
  destruct ending; [apply same_loading_setMessages|apply same_loading_refl].
Qed.

Lemma same_loading_requested request m : same_loading m (requested request m).
Proof. no_render. Qed.

Lemma same_loading_opened request m : same_loading m (opened request m).
Proof. no_render. Qed.

Lemma same_loading_converse s um net m :
  same_loading m (snd (try_catch (converse s um net) report_failure m)).
Proof.
  destruct net as [e|r].
  - rewrite converse_rejected. cbn [snd].
    eapply same_loading_trans;
      [apply same_loading_requested|apply same_loading_closing].
  - destruct (ok r) eqn:Hok.
    + destruct (body r) as [reader|] eqn:Hb.
      * rewrite (converse_stream _ _ _ _ Hok Hb). cbn [snd].
        eapply same_loading_trans; [apply same_loading_opened|].
        eapply same_loading_trans;
          [apply same_loading_run_lines|apply same_loading_closing].
      * rewrite (converse_no_body _ _ _ _ Hok Hb). cbn [snd].
        eapply same_loading_trans;
          [apply same_loading_requested|apply same_loading_closing].
    + rewrite (converse_bad_status _ _ _ _ Hok). cbn [snd].
      eapply same_loading_trans;
        [apply same_loading_requested|apply same_loading_closing].
Qed.

Lemma all_loading (l : list State) :
  Forall (fun s => isLoading s = true) l ->
  map isLoading l = repeat true (List.length l).
Proof.
  induction 1 as [|s l Hs _ IH]; cbn; [reflexivity|]. now rewrite Hs, IH.
Qed.

(** The machine after a send that passes the guard. *)
Lemma after_send_open s net :
  trim (inputText s) <> [] -> isLoading s = false ->
  after_send s net
  = snd (setIsLoading false
           (snd (try_catch (converse s (messages s ++ [newUserMessage s]) net)
                           report_failure (entered s)))).
Proof.
  intros Ht Hl. unfold after_send. rewrite (sendMessage_open net s Ht Hl).
  unfold try_finally.
  destruct (converse_caught s (messages s ++ [newUserMessage s]) net (entered s))
    as [m' Hm'].
  rewrite Hm'. reflexivity.
Qed.

(** C7.  A send that passes the guard ends with the loading flag cleared,
    whatever the network does (a rejected request, a bad status, a missing
    body, a stream with or without malformed lines, a read that fails).
    Along the send the flag reads: false after each of the two setters that
    precede [setIsLoading(true)], true after it and after every later
    setter, and false after the closing [setIsLoading(false)]. *)
Theorem C7_loading_flag_is_cleared_on_every_path s net :
  trim (inputText s) <> [] -> isLoading s = false ->
  isLoading (ui (after_send s net)) = false
  /\ exists n,
       map isLoading (renders (after_send s net))
       = [false; false] ++ repeat true (S n) ++ [false].
Proof.
  intros Ht Hl. rewrite (after_send_open s net Ht Hl).
  pose proof (same_loading_converse s (messages s ++ [newUserMessage s]) net
                (entered s)) as [_ (extra & Hr & Hall)].
  split; [reflexivity|].
  exists (List.length extra).
  cbn [snd setIsLoading commit renders]. rewrite Hr.
  rewrite !map_app. cbn [entered] in Hall |- *.
  rewrite (all_loading Hall). cbn. rewrite Hl. reflexivity.
Qed.

Lemma C7_loading_flag_witness :
  isLoading
    (ui (after_send greeting
           (stream_of 200 [wire "not-json" ++ [LF]; wire "{'message':{'content':'ok'}}"]
                      (Some TypeError))))
  = false
  /\ exists n,
       map isLoading
         (renders
            (after_send greeting
               (stream_of 200
                  [wire "not-json" ++ [LF]; wire "{'message':{'content':'ok'}}"]
                  (Some TypeError))))
       = [false; false] ++ repeat true (S n) ++ [false].
Proof.
  apply (@C7_loading_flag_is_cleared_on_every_path greeting
           (stream_of 200
              [wire "not-json" ++ [LF]; wire "{'message':{'content':'ok'}}"]
              (Some TypeError))).
  - vm_compute. discriminate.
  - reflexivity.
Defined.

(** ** Failures of the transport *)

(** C6.  In a send that passes the guard,
    - when [fetch] rejects, when the response has a status outside 200-299,
      or when it has no body, the transcript ends up as the one before the
      send, the message of the user, and one message of the AI that
      describes the failure;
    - when a read rejects in the middle of the stream, the transcript is
      the one the same stream would have left had it ended there, followed
      by one message of the AI that describes the failure;
    and in all four cases the loading flag ends false. *)
Theorem C6_transport_failure_is_reported_once s :
  trim (inputText s) <> [] -> isLoading s = false ->
  (forall e,
      messages (ui (after_send s (Rejects e)))
      = messages s ++ [newUserMessage s; failure_notice e]
      /\ isLoading (ui (after_send s (Rejects e))) = false)
  /\ (forall r, ok r = false ->
      messages (ui (after_send s (Resolves r)))
      = messages s
        ++ [newUserMessage s;
            failure_notice
              (Error (str "HTTP error! status: " ++ decimal (status r)))]
      /\ isLoading (ui (after_send s (Resolves r))) = false)
  /\ (forall r, ok r = true -> body r = None ->
      messages (ui (after_send s (Resolves r)))
      = messages s
        ++ [newUserMessage s;
            failure_notice (Error (str "Response body is null"))]
      /\ isLoading (ui (after_send s (Resolves r))) = false)
  /\ (forall st delivered e, ((200 <=? st) && (st <=? 299))%N = true ->
      messages (ui (after_send s (stream_of st delivered (Some e))))
      = messages (ui (after_send s (stream_of st delivered None)))
        ++ [failure_notice e]
      /\ isLoading (ui (after_send s (stream_of st delivered (Some e)))) = false).
Proof.
  intros Ht Hl. split; [|split; [|split]].
  - intros e. rewrite (after_send_open s _ Ht Hl), converse_rejected. cbn.
    now rewrite <- app_assoc.
  - intros r Hok.
    rewrite (after_send_open s _ Ht Hl), (converse_bad_status _ _ _ _ Hok).
    cbn. now rewrite <- app_assoc.
  - intros r Hok Hbody.
    rewrite (after_send_open s _ Ht Hl), (converse_no_body _ _ _ _ Hok Hbody).
    cbn. now rewrite <- app_assoc.
  - intros st delivered e Hst.
    rewrite !(after_send_open s _ Ht Hl). unfold stream_of.
    rewrite (converse_stream s _
               {| status := st;
                  body := Some {| chunks := delivered; failure := Some e |} |}
               _ Hst eq_refl).
    rewrite (converse_stream s _
               {| status := st;
                  body := Some {| chunks := delivered; failure := None |} |}
               _ Hst eq_refl).
    split; reflexivity.
Qed.

Lemma C6_transport_failure_witness :
  messages (ui (after_send greeting (Resolves {| status := 500; body := None |})))
  = [ {| sender := user; text := str "hi" |};
      {| sender := ai;
         text := str "Sorry, I couldn't connect to the AI. Error: Error: HTTP error! status: 500" |} ]
  /\ isLoading (ui (after_send greeting (Resolves {| status := 500; body := None |})))
     = false.
Proof.
  assert (Ht : trim (inputText greeting) <> []) by (vm_compute; discriminate).
  destruct (@C6_transport_failure_is_reported_once greeting Ht eq_refl)
    as (_ & Hstatus & _).
  apply (Hstatus {| status := 500; body := None |}). reflexivity.
Defined.

(** ** One reply per stream *)

(** Once the reply is open and is the last message, every further line that
    decodes extends it in place. *)
Lemma open_reply_grows lines : forall m base,
  (forall line, In line lines -> exists f, decode line = Normal f) ->
  firstChunk m = false ->
  messages (ui m) = base ++ [{| sender := ai; text := aiResponseText m |}] ->
  firstChunk (run_lines lines m) = false
  /\ aiResponseText (run_lines lines m) = aiResponseText m ++ reply_text lines
  /\ messages (ui (run_lines lines m))
     = base ++ [{| sender := ai; text := aiResponseText m ++ reply_text lines |}].
Proof.
  induction lines as [|l lines IH]; intros m base Hall Hf Hm.
  - rewrite run_lines_nil. unfold reply_text. cbn. rewrite app_nil_r. auto.
  - rewrite run_lines_cons.
    destruct (Hall l (or_introl eq_refl)) as [f Hd].
    assert (Hall' : forall line, In line lines -> exists f, decode line = Normal f)
      by (intros line Hin; apply Hall; now right).
    rewrite reply_text_cons. unfold delta_of. rewrite Hd.
    rewrite (run_line_decode l m), Hd.
    destruct f as [|d].
    + cbn [accumulate ret snd]. cbn [app]. now apply IH.
    + destruct (accumulate_later d m Hf) as [Hm' Hf'].
      pose proof (accumulate_text d m) as Ht'.
      rewrite Hm, update_last_snoc in Hm'. cbn [sender] in Hm'.
      rewrite <- Ht' in Hm'.
      destruct (IH _ base Hall' Hf' Hm') as (Hf2 & Ht2 & Hm2).
      rewrite Ht' in Ht2, Hm2. rewrite <- !app_assoc in Ht2, Hm2.
      auto.
Qed.

(** Before the first content the transcript is untouched; the first content
    opens the reply. *)
Lemma first_reply_opens lines : forall m,
  (forall line, In line lines -> exists f, decode line = Normal f) ->
  firstChunk m = true ->
  aiResponseText (run_lines lines m) = aiResponseText m ++ reply_text lines
  /\ ((forall line d, In line lines -> decode line <> Normal (Content d)) ->
      messages (ui (run_lines lines m)) = messages (ui m)
      /\ firstChunk (run_lines lines m) = true)
  /\ ((exists line d, In line lines /\ decode line = Normal (Content d)) ->
      messages (ui (run_lines lines m))
      = messages (ui m)
        ++ [{| sender := ai; text := aiResponseText m ++ reply_text lines |}]
      /\ firstChunk (run_lines lines m) = false).
Proof.
  induction lines as [|l lines IH]; intros m Hall Hf.
  - rewrite run_lines_nil. unfold reply_text. cbn. rewrite app_nil_r.
    split; [reflexivity|]. split; [auto|].
    intros (line & d & [] & _).
  - rewrite run_lines_cons.
    destruct (Hall l (or_introl eq_refl)) as [f Hd].
    assert (Hall' : forall line, In line lines -> exists f, decode line = Normal f)
      by (intros line Hin; apply Hall; now right).
    rewrite reply_text_cons. unfold delta_of. rewrite Hd.
    rewrite (run_line_decode l m), Hd.
    destruct f as [|d].
    + cbn [accumulate ret snd]. cbn [app].
      destruct (IH m Hall' Hf) as (Ht & Hnone & Hsome).
      split; [exact Ht|]. split.
      * intros Hno. apply Hnone. intros line d Hin. apply Hno. now right.
      * intros (line & d & [<-|Hin] & Hc); [congruence|].
        apply Hsome. eauto.
    + destruct (accumulate_first d m Hf) as [Hm' Hf'].
      pose proof (accumulate_text d m) as Ht'.
      rewrite <- Ht' in Hm'.
      destruct (open_reply_grows lines _ (messages (ui m)) Hall' Hf' Hm')
        as (Hf2 & Ht2 & Hm2).
      rewrite Ht' in Ht2, Hm2. rewrite <- !app_assoc in Ht2, Hm2.
      split; [exact Ht2|]. split.
      * intros Hno. exfalso. apply (Hno l d (or_introl eq_refl) Hd).
      * intros _. auto.
Qed.

(** C1, as the code has it.  In a send that passes the guard and whose
    stream ends normally, if every candidate line is processed without an
    exception and at least one of them carries content that passes the
    guard, then exactly one message of the AI is appended after the message
    of the user, and its final text, which is also the final running text,
    is the concatenation in arrival order of the content deltas of the
    lines. *)
Theorem C1_one_reply_per_clean_stream s st delivered :
  trim (inputText s) <> [] -> isLoading s = false ->
  ((200 <=? st) && (st <=? 299))%N = true ->
  (forall line, In line (all_lines delivered) ->
                exists f, decode line = Normal f) ->
  (exists line d, In line (all_lines delivered)
                  /\ decode line = Normal (Content d)) ->
  messages (ui (after_send s (stream_of st delivered None)))
  = messages s
    ++ [newUserMessage s;
        {| sender := ai; text := reply_text (all_lines delivered) |}]
  /\ aiResponseText (after_send s (stream_of st delivered None))
     = reply_text (all_lines delivered).
Proof.
  intros Ht Hl Hst Hall Hsome.
  rewrite (after_send_open s _ Ht Hl). unfold stream_of.
  rewrite (converse_stream s _
             {| status := st;
                body := Some {| chunks := delivered; failure := None |} |}
             _ Hst eq_refl).
  cbn [snd closing failure chunks setIsLoading commit ui messages aiResponseText].
  destruct (first_reply_opens (all_lines delivered)
              (opened (chat_request s (messages s ++ [newUserMessage s]))
                      (entered s)) Hall eq_refl)
    as (Htext & _ & Hopen).
  destruct (Hopen Hsome) as [Hm _].
  rewrite Hm, Htext. cbn. rewrite <- app_assoc. auto.
Qed.

Lemma C1_one_reply_witness :
  messages
    (ui (after_send greeting
           (stream_of 200
              [wire "{'message':{'content':'Hel'}}" ++ [LF];
               wire "{'message':{'content':'lo'}}" ++ [LF];
               wire "{'done':true}" ++ [LF]] None)))
  = [] ++ [ {| sender := user; text := str "hi" |};
            {| sender := ai; text := str "Hello" |} ]
  /\ aiResponseText
       (after_send greeting
          (stream_of 200
             [wire "{'message':{'content':'Hel'}}" ++ [LF];
              wire "{'message':{'content':'lo'}}" ++ [LF];
              wire "{'done':true}" ++ [LF]] None))
     = str "Hello".
Proof.
  apply (@C1_one_reply_per_clean_stream greeting 200
           [wire "{'message':{'content':'Hel'}}" ++ [LF];
            wire "{'message':{'content':'lo'}}" ++ [LF];
            wire "{'done':true}" ++ [LF]]).
  - vm_compute. discriminate.
  - reflexivity.
  - reflexivity.
  - intros line Hin. vm_compute in Hin.
    destruct Hin as [<-|[<-|[<-|[]]]]; vm_compute; eauto.
  - exists (wire "{'message':{'content':'Hel'}}"), (str "Hel").
    split; [vm_compute; auto|vm_compute; reflexivity].
Defined.

(** C1, as the spec words it, fails in two ways that the code intends: a
    stream without content appends no message of the AI at all, and a stream
    with a malformed line appends the diagnostic next to the reply, two
    messages of the AI. *)
Lemma C1_not_always_one_message :
  messages (ui (after_send greeting (streaming [wire "{'done':true}" ++ [LF]])))
  = [ {| sender := user; text := str "hi" |} ]
  /\ messages
       (ui (after_send greeting
              (streaming [wire "not-json" ++ [LF]
                          ++ wire "{'message':{'content':'ok'}}" ++ [LF]])))
     = [ {| sender := user; text := str "hi" |};
         line_notice SyntaxError;
         {| sender := ai; text := str "ok" |} ].
Proof. vm_compute. auto. Qed.

(** C3.  The stream [reply_with_a_bad_line] has one line that [JSON.parse]
    rejects, between two content lines.  Its diagnostic does not stay in
    the transcript: the content line that follows finds a message of the AI
    in last position, takes it for the open reply and writes the running
    text over it.  The transcript ends with the message of the user and two
    messages of the AI, none of which is a diagnostic, and the last of
    which carries the whole reply.  This is so when every updater runs at
    its call ([after_send]) and whenever else React runs the updaters
    ([Deferred.settled], for every schedule). *)
Theorem C3_diagnostic_is_overwritten :
  all_lines reply_with_a_bad_line
  = [wire "{'message':{'content':'a'}}"; wire "not-json";
     wire "{'message':{'content':'b'}}"]
  /\ (exists e, JSON_parse (wire "not-json") = Throw e)
  /\ map sender
       (messages (ui (after_send greeting (streaming reply_with_a_bad_line))))
     = [user; ai; ai]
  /\ filter is_line_notice
       (messages (ui (after_send greeting (streaming reply_with_a_bad_line))))
     = []
  /\ (exists init,
       messages (ui (after_send greeting (streaming reply_with_a_bad_line)))
       = init ++ [{| sender := ai; text := str "ab" |}])
  /\ forall schedule,
       map sender
         (Deferred.settled schedule (all_lines reply_with_a_bad_line)
            (Deferred.about_to_read greeting))
       = [user; ai; ai]
       /\ filter is_line_notice
            (Deferred.settled schedule (all_lines reply_with_a_bad_line)
               (Deferred.about_to_read greeting))
          = []
       /\ exists init,
            Deferred.settled schedule (all_lines reply_with_a_bad_line)
              (Deferred.about_to_read greeting)
            = init ++ [{| sender := ai; text := str "ab" |}].
Proof.
  split; [vm_compute; reflexivity|].
  split; [eexists; vm_compute; reflexivity|].
  split; [vm_compute; reflexivity|].
  split; [vm_compute; reflexivity|].
  split; [eexists [_; _]; vm_compute; reflexivity|].
  intros schedule.
  destruct schedule as [|[|] [|[|] [|[|] later]]];
    (split; [vm_compute; reflexivity|];
     split; [vm_compute; reflexivity|];
     eexists [_; _]; vm_compute; reflexivity).
Qed.

(** ** Chunk boundaries *)

Lemma split_lines_nonempty s : split_lines s <> [].
Proof.
  destruct s as [|c s]; cbn; [discriminate|].
  destruct (c =? LF)%N; [discriminate|].
  destruct (split_lines s); discriminate.
Qed.

(** A line feed separates what is before it from what is after it. *)
Lemma split_lines_feed a b :
  split_lines (a ++ LF :: b) = split_lines a ++ split_lines b.
Proof.
  induction a as [|c a IH]; cbn; [reflexivity|].
  destruct (c =? LF)%N; rewrite IH; [reflexivity|].
  pose proof (split_lines_nonempty a) as Hne.
  destruct (split_lines a); [congruence|reflexivity].
Qed.

Lemma ends_line_cases chunk :
  ends_line chunk = true -> chunk = [] \/ exists a, chunk = a ++ [LF].
Proof.
  unfold ends_line. destruct (rev chunk) as [|c r] eqn:Hr; intros H.
  - left. apply (f_equal (@rev _)) in Hr. now rewrite rev_involutive in Hr.
  - right. apply N.eqb_eq in H. subst c. exists (rev r).
    apply (f_equal (@rev _)) in Hr. now rewrite rev_involutive in Hr.
Qed.

Lemma lines_of_nil : lines_of [] = [].
Proof. reflexivity. Qed.

Lemma lines_of_app a b :
  ends_line a = true -> lines_of (a ++ b) = lines_of a ++ lines_of b.
Proof.
  intros H. destruct (ends_line_cases a H) as [->|[a' ->]]; [reflexivity|].
  unfold lines_of. rewrite <- app_assoc. cbn [app].
  rewrite !split_lines_feed, !filter_app. cbn. now rewrite app_nil_r.
Qed.

Lemma aligned_all_lines delivered :
  line_aligned delivered = true ->
  all_lines delivered = lines_of (List.concat delivered).
Proof.
  induction delivered as [|c rest IH]; intros H; [reflexivity|].
  unfold all_lines in *. cbn [flat_map List.concat].
  destruct rest as [|c' rest'].
  - cbn. now rewrite !app_nil_r.
  - cbn [line_aligned] in H. apply andb_prop in H as [Hc Hrest].
    rewrite (IH Hrest). symmetry. now apply lines_of_app.
Qed.

(** C2, as the code has it.  Two chunkings of the same text that cut it
    between lines only (each chunk but the last is empty or ends with a
    line feed) drive the read loop to the same final running text. *)
Theorem C2_line_aligned_chunkings_agree one other ending m :
  List.concat one = List.concat other ->
  line_aligned one = true -> line_aligned other = true ->
  aiResponseText (snd (read_loop one ending m))
  = aiResponseText (snd (read_loop other ending m)).
Proof.
  intros Heq H1 H2.
  rewrite !read_loop_lines, (aligned_all_lines one H1),
    (aligned_all_lines other H2), Heq. reflexivity.
Qed.

Lemma C2_line_aligned_witness :
  aiResponseText (snd (read_loop two_lines_together None (invoke greeting)))
  = aiResponseText (snd (read_loop two_lines_apart None (invoke greeting))).
Proof.
  apply (@C2_line_aligned_chunkings_agree two_lines_together two_lines_apart
           None (invoke greeting)); vm_compute; reflexivity.
Defined.

(** C2, as the spec words it, fails for a cut inside a line: each half is
    parsed on its own, both are rejected, and the content is lost. *)
Lemma C2_cut_inside_a_line_loses_content :
  List.concat delivered_whole = List.concat delivered_in_halves
  /\ aiResponseText (snd (read_loop delivered_whole None (invoke greeting)))
     = str "Hi"
  /\ aiResponseText (snd (read_loop delivered_in_halves None (invoke greeting)))
     = [].
Proof. vm_compute. auto. Qed.

End Props.

(* ===================================================================== *)
(** * Properties that hold whenever React runs the updaters *)
(* ===================================================================== *)

Module LateReads.
Import JS Net Home Props Deferred.

Lemma begins_with_app prefix rest : begins_with (prefix ++ rest) prefix = true.
Proof.
  induction prefix as [|c prefix IH]; [destruct rest; reflexivity|].
  cbn [app begins_with]. now rewrite N.eqb_refl, IH.
Qed.

Lemma line_notice_is_recognised e : is_line_notice (line_notice e) = true.
Proof. unfold is_line_notice, line_notice. cbn [sender text]. apply begins_with_app. Qed.

(** Running every updater at its call is what [Home] does. *)
Lemma render_line_late line m :
  render (line_late line (caught_up m)) = caught_up (run_line line m).
Proof.
  rewrite run_line_decode. unfold line_late.
  destruct (decode line) as [[|d]|e]; try reflexivity.
  cbn. unfold Home.bind, Home.read. cbn.
  destruct (firstChunk m); reflexivity.
Qed.

Lemma eager_schedule_is_home lines : forall m,
  lines_late (repeat true (List.length lines)) lines (caught_up m)
  = caught_up (run_lines lines m).
Proof.
  induction lines as [|l lines IH]; intros m; [reflexivity|].
  cbn [List.length repeat lines_late].
  rewrite render_line_late, IH, run_lines_cons. reflexivity.
Qed.

(** The running text does not depend on the schedule. *)
Lemma running_late line p :
  running (line_late line p) = running p ++ delta_of line.
Proof.
  unfold line_late, delta_of.
  destruct (decode line) as [[|d]|e]; cbn; try now rewrite app_nil_r.
  reflexivity.
Qed.

Lemma running_text_whenever lines : forall schedule p,
  running (lines_late schedule lines p) = running p ++ reply_text lines.
Proof.
  induction lines as [|l lines IH]; intros schedule p.
  - unfold reply_text. cbn. now rewrite app_nil_r.
  - rewrite reply_text_cons, app_assoc, <- running_late.
    destruct schedule as [|[|] later]; cbn [lines_late]; rewrite IH; reflexivity.
Qed.

(** With every updater run at its call, the queued loop ends with the
    transcript of [sendMessage]. *)
Lemma eager_schedule_is_the_handler s delivered :
  trim (inputText s) <> [] -> isLoading s = false ->
  settled (repeat true (List.length (all_lines delivered)))
          (all_lines delivered) (about_to_read s)
  = messages (ui (after_send s (streaming delivered))).
Proof.
  intros Ht Hl. rewrite (after_send_open s (streaming delivered) Ht Hl).
  unfold streaming.
  rewrite (@converse_stream s (messages s ++ [newUserMessage s])
             {| status := 200;
                body := Some {| chunks := delivered; failure := None |} |}
             {| chunks := delivered; failure := None |} (entered s)
             eq_refl eq_refl).
  unfold settled, about_to_read. rewrite eager_schedule_is_home.
  reflexivity.
Qed.

End LateReads.

(* ===================================================================== *)
(** * Further properties of the page *)
(* ===================================================================== *)

Module Extras.
Import JS Net Home Props Page.
Local Open Scope js_scope.

(** ** What a send leaves alone *)

Lemma frame_setMessages f m :
  requests (snd (setMessages f m)) = requests m
  /\ inputText (ui (snd (setMessages f m))) = inputText (ui m)
  /\ bystanders (ui (snd (setMessages f m))) = bystanders (ui m).
Proof. repeat split. Qed.

Lemma frame_run_line line m :
  requests (run_line line m) = requests m
  /\ inputText (ui (run_line line m)) = inputText (ui m)
  /\ bystanders (ui (run_line line m)) = bystanders (ui m).
Proof.
  rewrite run_line_decode. destruct (decode line) as [[|d]|e].
  - repeat split.
  - cbn. unfold bind, read. cbn. destruct (firstChunk m); repeat split.
  - apply frame_setMessages.
Qed.

Lemma frame_run_lines lines : forall m,
  requests (run_lines lines m) = requests m
  /\ inputText (ui (run_lines lines m)) = inputText (ui m)
  /\ bystanders (ui (run_lines lines m)) = bystanders (ui m).
Proof.
  induction lines as [|l lines IH]; intros m.
  - rewrite run_lines_nil. repeat split.
  - rewrite run_lines_cons.
    destruct (IH (run_line l m)) as (H1 & H2 & H3).
    destruct (frame_run_line l m) as (G1 & G2 & G3).
    repeat split; congruence.
Qed.

Lemma frame_closing ending m :
  requests (closing ending m) = requests m
  /\ inputText (ui (closing ending m)) = inputText (ui m)
  /\ bystanders (ui (closing ending m)) = bystanders (ui m).
Proof. destruct ending; repeat split. Qed.

(** What the outer [try] with its [catch] does to the requests and to the
    cells other than the transcript: one request is added, nothing else. *)
Lemma frame_converse s um net m :
  requests (snd (try_catch (converse s um net) report_failure m))
  = requests m ++ [chat_request s um]
  /\ inputText (ui (snd (try_catch (converse s um net) report_failure m)))
     = inputText (ui m)
  /\ bystanders (ui (snd (try_catch (converse s um net) report_failure m)))
     = bystanders (ui m).
Proof.
  destruct net as [e|r].
  - rewrite converse_rejected. repeat split.
  - destruct (ok r) eqn:Hok.
    + destruct (body r) as [reader|] eqn:Hb.
      * rewrite (converse_stream _ _ _ _ Hok Hb). cbn [snd].
        destruct (frame_closing (failure reader)
                    (run_lines (all_lines (chunks reader))
                               (opened (chat_request s um) m)))
          as (H1 & H2 & H3).
        destruct (frame_run_lines (all_lines (chunks reader))
                    (opened (chat_request s um) m)) as (G1 & G2 & G3).
        assert (O1 : requests (opened (chat_request s um) m)
                     = requests m ++ [chat_request s um]) by reflexivity.
        assert (O2 : ui (opened (chat_request s um) m) = ui m) by reflexivity.
        rewrite O2 in G2, G3.
        repeat split; congruence.
      * rewrite (converse_no_body _ _ _ _ Hok Hb). repeat split.
    + rewrite (converse_bad_status _ _ _ _ Hok). repeat split.
Qed.

(** X1.  A send that passes the guard hands exactly one request to [fetch],
    whatever the network then does: it goes to the chat endpoint for the
    selected model with streaming on, and carries the whole transcript in
    order followed by the text just typed, with the user's messages in role
    user and the AI's in role assistant. *)
Theorem one_request_carries_the_conversation s net :
  trim (inputText s) <> [] -> isLoading s = false ->
  exists request,
    requests (after_send s net) = [request]
    /\ model request = currentModel s
    /\ stream request = true
    /\ map content (request_messages request)
       = map text (messages s) ++ [inputText s]
    /\ map role (request_messages request)
       = map (fun msg => match sender msg with
                         | user => role_user
                         | ai => role_assistant
                         end) (messages s)
         ++ [role_user].
Proof.
  intros Ht Hl.
  exists (chat_request s (messages s ++ [newUserMessage s])).
  split.
  - rewrite (after_send_open s net Ht Hl). cbn [snd setIsLoading commit requests].
    now rewrite (proj1 (frame_converse s _ net (entered s))).
  - cbn [chat_request model stream request_messages].
    rewrite !map_app, !map_map. cbn. auto.
Qed.

Lemma one_request_witness :
  exists request,
    requests (after_send greeting (Rejects TypeError)) = [request]
    /\ model request = str "llama3.2"
    /\ stream request = true
    /\ map content (request_messages request) = [] ++ [str "hi"]
    /\ map role (request_messages request) = [] ++ [role_user].
Proof.
  apply (@one_request_carries_the_conversation greeting (Rejects TypeError)).
  - vm_compute. discriminate.
  - reflexivity.
Defined.

Lemma send_frame s net :
  trim (inputText s) <> [] -> isLoading s = false ->
  inputText (ui (after_send s net)) = []
  /\ bystanders (ui (after_send s net)) = bystanders s.
Proof.
  intros Ht Hl. rewrite (after_send_open s net Ht Hl).
  destruct (frame_converse s (messages s ++ [newUserMessage s]) net (entered s))
    as (_ & Hi & Hb).
  split.
  - cbn [snd setIsLoading commit ui inputText]. now rewrite Hi.
  - transitivity
      (bystanders
         (ui (snd (try_catch (converse s (messages s ++ [newUserMessage s]) net)
                             report_failure (entered s)))));
      [reflexivity|]. now rewrite Hb.
Qed.

(** X2.  A send that passes the guard ends with the input box empty and
    with the listening flag, the TTS toggle, the selected model and the
    settings flag as they were, on every path (rejected request, bad
    status, missing body, stream with or without malformed lines). *)
Theorem send_clears_the_input_and_nothing_else s net :
  trim (inputText s) <> [] -> isLoading s = false ->
  inputText (ui (after_send s net)) = []
  /\ bystanders (ui (after_send s net)) = bystanders s.
Proof. apply send_frame. Qed.

Lemma send_clears_the_input_witness :
  inputText (ui (after_send greeting (streaming [wire "not-json"]))) = []
  /\ bystanders (ui (after_send greeting (streaming [wire "not-json"])))
     = bystanders greeting.
Proof.
  apply (@send_clears_the_input_and_nothing_else greeting
           (streaming [wire "not-json"])).
  - vm_compute. discriminate.
  - reflexivity.
Defined.

(** X3.  [sendMessage] returns without any effect exactly when the input is
    made of white space (or empty) or a reply is being awaited: in every
    other state it calls state setters. *)
Theorem send_is_a_no_op_exactly_when_guarded s net :
  sendMessage net (invoke s) = (Normal tt, invoke s)
  <-> (Forall (fun c => is_white_space c = true) (inputText s)
       \/ isLoading s = true).
Proof.
  split.
  - intros H.
    destruct (isLoading s) eqn:Hl; [now right|left].
    apply trim_empty_iff.
    destruct (trim (inputText s)) as [|c t] eqn:Ht; [reflexivity|exfalso].
    assert (Hne : trim (inputText s) <> []) by (rewrite Ht; discriminate).
    pose proof (after_send_open s net Hne Hl) as Ha.
    unfold after_send in Ha. rewrite H in Ha. cbn [snd] in Ha.
    apply (f_equal renders) in Ha.
    cbn [invoke snd setIsLoading commit renders] in Ha.
    symmetry in Ha. apply app_eq_nil in Ha as [_ Ha]. discriminate.
  - intros H. unfold sendMessage, bind, read. cbn [ui invoke].
    destruct H as [H|H].
    + rewrite (trim_blank H). reflexivity.
    + rewrite H, orb_true_r. reflexivity.
Qed.

Lemma send_is_a_no_op_witness :
  sendMessage (streaming []) (invoke blank) = (Normal tt, invoke blank).
Proof.
  apply (proj2 (send_is_a_no_op_exactly_when_guarded blank (streaming []))).
  left. vm_compute. repeat constructor.
Defined.


(** ** The shape of the transcript *)

Lemma update_last_ends reply prev :
  exists init, update_last reply prev
               = init ++ [{| sender := ai; text := reply |}].
Proof.
  destruct prev as [|x prev' _] using rev_ind.
  - exists []. reflexivity.
  - rewrite update_last_snoc. destruct (sender x).
    + exists (prev' ++ [x]). now rewrite <- app_assoc.
    + exists prev'. reflexivity.
Qed.

(** Below a base that ends with a message of the user, a line only ever
    touches the tail: it appends one message of the AI to it or rewrites its
    last one. *)
Lemma tail_run_line base line m tail :
  last_sender base = Some user ->
  messages (ui m) = base ++ tail ->
  Forall (fun x => sender x = ai) tail ->
  exists tail',
    messages (ui (run_line line m)) = base ++ tail'
    /\ Forall (fun x => sender x = ai) tail'
    /\ (List.length tail <= List.length tail' <= S (List.length tail))%nat.
Proof.
  intros Hbase Hm Hai.
  assert (Happ : forall x, sender x = ai ->
            exists tail', (base ++ tail) ++ [x] = base ++ tail'
              /\ Forall (fun x => sender x = ai) tail'
              /\ (List.length tail <= List.length tail' <= S (List.length tail))%nat).
  { intros x Hx. exists (tail ++ [x]). rewrite app_assoc. split; [reflexivity|].
    split; [apply Forall_app; auto|]. rewrite length_app. cbn. lia. }
  rewrite run_line_decode. destruct (decode line) as [[|d]|e].
  - exists tail. cbn. auto.
  - destruct (firstChunk m) eqn:Hf.
    + rewrite (proj1 (accumulate_first d m Hf)), Hm. now apply Happ.
    + rewrite (proj1 (accumulate_later d m Hf)), Hm.
      destruct tail as [|x tail' _] using rev_ind.
      * rewrite app_nil_r, update_last_appends by congruence.
        eexists. split; [reflexivity|]. split; [repeat constructor|cbn; lia].
      * apply Forall_app in Hai as [Hai Hx]. inversion Hx as [|? ? Hsx _]; subst.
        rewrite app_assoc, update_last_snoc, Hsx, <- app_assoc.
        eexists. split; [reflexivity|]. split.
        -- apply Forall_app. auto.
        -- rewrite !length_app. cbn. lia.
  - cbn. rewrite Hm. now apply Happ.
Qed.

Lemma tail_run_lines base lines : forall m tail,
  last_sender base = Some user ->
  messages (ui m) = base ++ tail ->
  Forall (fun x => sender x = ai) tail ->
  exists tail',
    messages (ui (run_lines lines m)) = base ++ tail'
    /\ Forall (fun x => sender x = ai) tail'
    /\ (List.length tail <= List.length tail'
        <= List.length lines + List.length tail)%nat.
Proof.
  induction lines as [|l lines IH]; intros m tail Hbase Hm Hai.
  - rewrite run_lines_nil. exists tail. cbn. auto.
  - rewrite run_lines_cons.
    destruct (@tail_run_line base l m tail Hbase Hm Hai)
      as (t1 & Hm1 & Hai1 & Hlen1).
    destruct (IH _ t1 Hbase Hm1 Hai1) as (t2 & Hm2 & Hai2 & Hlen2).
    exists t2. cbn [List.length]. repeat split; auto; lia.
Qed.

(** X4.  A send that passes the guard never rewrites what was in the
    transcript: the transcript it leaves is the one it found, then the
    message of the user, then messages of the AI only, at most one per
    candidate line of the stream plus one for a failure of the transport. *)
Theorem send_only_extends_the_transcript s net :
  trim (inputText s) <> [] -> isLoading s = false ->
  exists tail,
    messages (ui (after_send s net))
    = messages s ++ newUserMessage s :: tail
    /\ Forall (fun x => sender x = ai) tail
    /\ (List.length tail
        <= match net with
           | Resolves {| status := _; body := Some reader |} =>
               S (List.length (all_lines (chunks reader)))
           | _ => 1
           end)%nat.
Proof.
  intros Ht Hl. rewrite (after_send_open s net Ht Hl).
  cbn [snd setIsLoading commit ui messages].
  assert (Hbase : last_sender (messages s ++ [newUserMessage s]) = Some user)
    by apply last_sender_snoc.
  assert (Hone : forall e (m : Machine),
            messages (ui m) = messages s ++ [newUserMessage s] ->
            exists tail,
              messages (ui (closing (Some e) m))
              = messages s ++ newUserMessage s :: tail
              /\ Forall (fun x => sender x = ai) tail
              /\ (List.length tail <= 1)%nat).
  { intros e m Hm. exists [failure_notice e].
    change (messages (ui (closing (Some e) m)))
      with (messages (ui m) ++ [failure_notice e]).
    rewrite Hm, <- app_assoc.
    split; [reflexivity|]. split; [repeat constructor|cbn; lia]. }
  destruct net as [e|r].
  - rewrite converse_rejected. cbn [snd]. now apply Hone.
  - destruct (ok r) eqn:Hok.
    + destruct (body r) as [reader|] eqn:Hb.
      * rewrite (converse_stream _ _ _ _ Hok Hb). cbn [snd].
        destruct (@tail_run_lines (messages s ++ [newUserMessage s])
                    (all_lines (chunks reader))
                    (opened (chat_request s (messages s ++ [newUserMessage s]))
                            (entered s)) [] Hbase
                    (eq_sym (app_nil_r _)) (Forall_nil _))
          as (tail & Hm & Hai & Hlen).
        destruct r as [st b]. cbn in Hb. subst b.
        cbn [chunks] in *. cbn [List.length] in Hlen.
        destruct (failure reader) as [e|].
        -- exists (tail ++ [failure_notice e]).
           change (messages (ui (closing (Some e) ?m)))
             with (messages (ui m) ++ [failure_notice e]).
           rewrite Hm, <- !app_assoc.
           split; [reflexivity|]. split.
           ++ apply Forall_app. auto.
           ++ rewrite length_app. cbn [List.length]. lia.
        -- exists tail. cbn [closing]. rewrite Hm, <- app_assoc.
           split; [reflexivity|]. split; [exact Hai|]. lia.
      * rewrite (converse_no_body _ _ _ _ Hok Hb). cbn [snd].
        destruct r as [st b]. cbn in Hb. subst b. now apply Hone.
    + rewrite (converse_bad_status _ _ _ _ Hok). cbn [snd].
      destruct (Hone (Error (str "HTTP error! status: " ++ decimal (status r)))
                  (requested (chat_request s (messages s ++ [newUserMessage s]))
                             (entered s)) eq_refl)
        as (tail & Hm & Hai & Hlen).
      exists tail. split; [exact Hm|]. split; [exact Hai|].
      destruct r as [st [b|]]; lia.
Qed.

Lemma send_only_extends_witness :
  exists tail,
    messages (ui (after_send interleaved_idle
                    (streaming [wire "not-json" ++ [LF]
                                ++ wire "{'message':{'content':'ok'}}"])))
    = messages interleaved_idle ++ newUserMessage interleaved_idle :: tail
    /\ Forall (fun x => sender x = ai) tail
    /\ (List.length tail
        <= S (List.length
                (all_lines [wire "not-json" ++ [LF]
                            ++ wire "{'message':{'content':'ok'}}"])))%nat.
Proof.
  apply (@send_only_extends_the_transcript interleaved_idle
           (streaming [wire "not-json" ++ [LF]
                       ++ wire "{'message':{'content':'ok'}}"])).
  - vm_compute. discriminate.
  - reflexivity.
Defined.

(** ** Where the reply ends up *)

Lemma reply_text_app a b : reply_text (a ++ b) = reply_text a ++ reply_text b.
Proof.
  unfold reply_text. now rewrite map_app, concat_app.
Qed.

Lemma quiet_lines lines : forall m,
  Forall (fun l => decode l = Normal NoContent) lines ->
  run_lines lines m = m /\ reply_text lines = [].
Proof.
  induction lines as [|l lines IH]; intros m H.
  - split; reflexivity.
  - inversion H as [|? ? Hl Hrest]; subst.
    rewrite run_lines_cons, run_line_decode, reply_text_cons.
    unfold delta_of. rewrite Hl. cbn [accumulate ret snd app].
    now apply IH.
Qed.

Lemma accumulate_ends d m :
  exists init,
    messages (ui (snd (accumulate (Content d) m)))
    = init ++ [{| sender := ai; text := aiResponseText m ++ d |}].
Proof.
  destruct (firstChunk m) eqn:Hf.
  - rewrite (proj1 (accumulate_first d m Hf)). eauto.
  - rewrite (proj1 (accumulate_later d m Hf)). apply update_last_ends.
Qed.

Lemma reply_is_last s st delivered before l d after :
  trim (inputText s) <> [] -> isLoading s = false ->
  ((200 <=? st) && (st <=? 299))%N = true ->
  all_lines delivered = before ++ l :: after ->
  decode l = Normal (Content d) ->
  Forall (fun x => decode x = Normal NoContent) after ->
  exists init,
    messages (ui (after_send s (stream_of st delivered None)))
    = init ++ [{| sender := ai; text := reply_text (all_lines delivered) |}].
Proof.
  intros Ht Hl Hst Hlines Hd Hafter.
  rewrite (after_send_open s _ Ht Hl). unfold stream_of.
  rewrite (converse_stream s _
             {| status := st;
                body := Some {| chunks := delivered; failure := None |} |}
             _ Hst eq_refl).
  cbn [snd closing failure chunks setIsLoading commit ui messages].
  rewrite Hlines, run_lines_app, run_lines_cons.
  set (m0 := opened (chat_request s (messages s ++ [newUserMessage s]))
                    (entered s)).
  destruct (quiet_lines (run_line l (run_lines before m0)) Hafter) as [-> Hq].
  rewrite run_line_decode, Hd.
  destruct (accumulate_ends d (run_lines before m0)) as [init Hinit].
  exists init. rewrite Hinit.
  rewrite running_text_all_lines, reply_text_app, reply_text_cons, Hq.
  unfold delta_of. rewrite Hd, app_nil_r. reflexivity.
Qed.

(** X5.  However many lines of a stream were malformed, if a content line
    is followed only by lines without content until the stream ends, then
    the transcript ends with a message of the AI that carries the complete
    reply: the content deltas of all lines of the stream, in order. *)
Theorem transcript_ends_with_the_whole_reply s st delivered before l d after :
  trim (inputText s) <> [] -> isLoading s = false ->
  ((200 <=? st) && (st <=? 299))%N = true ->
  all_lines delivered = before ++ l :: after ->
  decode l = Normal (Content d) ->
  Forall (fun x => decode x = Normal NoContent) after ->
  exists init,
    messages (ui (after_send s (stream_of st delivered None)))
    = init ++ [{| sender := ai; text := reply_text (all_lines delivered) |}].
Proof. apply reply_is_last. Qed.

Lemma transcript_ends_with_the_whole_reply_witness :
  exists init,
    messages
      (ui (after_send greeting
             (stream_of 200
                [wire "{'message':{'content':'a'}}" ++ [LF] ++ wire "not-json" ++ [LF];
                 wire "{'message':{'content':'b'}}" ++ [LF] ++ wire "{'done':true}"]
                None)))
    = init
      ++ [{| sender := ai;
             text := reply_text
                       (all_lines
                          [wire "{'message':{'content':'a'}}" ++ [LF]
                           ++ wire "not-json" ++ [LF];
                           wire "{'message':{'content':'b'}}" ++ [LF]
                           ++ wire "{'done':true}"]) |}].
Proof.
  apply (@transcript_ends_with_the_whole_reply greeting 200
           [wire "{'message':{'content':'a'}}" ++ [LF] ++ wire "not-json" ++ [LF];
            wire "{'message':{'content':'b'}}" ++ [LF] ++ wire "{'done':true}"]
           [wire "{'message':{'content':'a'}}"; wire "not-json"]
           (wire "{'message':{'content':'b'}}") (str "b")
           [wire "{'done':true}"]).
  - vm_compute. discriminate.
  - reflexivity.
  - reflexivity.
  - vm_compute. reflexivity.
  - vm_compute. reflexivity.
  - repeat constructor.
Defined.

(** X6.  What becomes of the diagnostic of a failing line when a content
    line follows it: before the reply is opened ([firstChunk] holds) the
    diagnostic stays and the reply is appended after it; once the reply is
    open the content is written over the diagnostic, which is lost. *)
Theorem diagnostic_survives_only_before_the_reply bad good e d m :
  decode bad = Throw e ->
  decode good = Normal (Content d) ->
  messages (ui (run_lines [bad; good] m))
  = if firstChunk m
    then messages (ui m)
         ++ [line_notice e; {| sender := ai; text := aiResponseText m ++ d |}]
    else messages (ui m) ++ [{| sender := ai; text := aiResponseText m ++ d |}].
Proof.
  intros Hbad Hgood.
  rewrite !run_lines_cons, run_lines_nil, !run_line_decode, Hbad, Hgood.
  set (m1 := snd (report_line e m)).
  assert (Hm1 : messages (ui m1) = messages (ui m) ++ [line_notice e]) by reflexivity.
  assert (Ht1 : aiResponseText m1 = aiResponseText m) by reflexivity.
  assert (Hf1 : firstChunk m1 = firstChunk m) by reflexivity.
  destruct (firstChunk m) eqn:Hf.
  - rewrite (proj1 (accumulate_first d m1 Hf1)), Hm1, Ht1, <- app_assoc.
    reflexivity.
  - rewrite (proj1 (accumulate_later d m1 Hf1)), Hm1, Ht1, update_last_snoc.
    reflexivity.
Qed.

Lemma diagnostic_survives_witness :
  messages (ui (run_lines [wire "not-json"; wire "{'message':{'content':'lo'}}"]
                          interleaved))
  = if firstChunk interleaved
    then messages (ui interleaved)
         ++ [line_notice SyntaxError;
             {| sender := ai; text := aiResponseText interleaved ++ str "lo" |}]
    else messages (ui interleaved)
         ++ [{| sender := ai; text := aiResponseText interleaved ++ str "lo" |}].
Proof.
  apply (@diagnostic_survives_only_before_the_reply
           (wire "not-json") (wire "{'message':{'content':'lo'}}")
           SyntaxError (str "lo") interleaved); vm_compute; reflexivity.
Defined.

(** ** Candidate lines *)

Lemma split_lines_pieces (P : code_unit -> Prop) s :
  Forall P s -> Forall (Forall P) (split_lines s).
Proof.
  induction 1 as [|c s Hc _ IH]; cbn; [repeat constructor|].
  destruct (c =? LF)%N; [constructor; [constructor|exact IH]|].
  destruct (split_lines s) as [|piece pieces]; [repeat constructor; auto|].
  inversion IH; subst. constructor; [constructor; auto|auto].
Qed.

Lemma split_lines_no_feed s : Forall (fun piece => ~ In LF piece) (split_lines s).
Proof.
  induction s as [|c s IH]; cbn; [repeat constructor; auto|].
  destruct (N.eqb_spec c LF) as [->|Hne]; [constructor; auto|].
  destruct (split_lines s) as [|piece pieces].
  - repeat constructor. intros [H|[]]. congruence.
  - inversion IH; subst. constructor; [|auto].
    intros [H|H]; [congruence|auto].
Qed.

Lemma jsstring_eqb_nil s : jsstring_eqb s [] = true <-> s = [].
Proof. destruct s; cbn; split; congruence. Qed.

(** X7.  Chunks that hold nothing but white space (empty chunks, bare line
    feeds, blank lines) are inert: reading any number of them calls no
    setter, changes no variable and hands nothing to [JSON.parse]. *)
Theorem blank_chunks_are_inert delivered ending m :
  Forall (Forall (fun c => is_white_space c = true)) delivered ->
  all_lines delivered = []
  /\ read_loop delivered ending m
     = (match ending with Some e => Throw e | None => Normal tt end, m).
Proof.
  intros H.
  assert (Hl : all_lines delivered = []).
  { unfold all_lines. induction H as [|chunk rest Hc _ IH]; cbn; [reflexivity|].
    rewrite IH, app_nil_r. unfold lines_of.
    pose proof (@split_lines_pieces _ _ Hc) as Hp.
    induction Hp as [|piece pieces Hpiece _ IHp]; cbn; [reflexivity|].
    rewrite (trim_blank Hpiece). cbn. exact IHp. }
  split; [exact Hl|]. rewrite read_loop_lines, Hl. reflexivity.
Qed.

Lemma blank_chunks_witness :
  all_lines [[]; [LF]; str "  " ++ [13%N; LF; 9%N]] = []
  /\ read_loop [[]; [LF]; str "  " ++ [13%N; LF; 9%N]] None interleaved
     = (Normal tt, interleaved).
Proof.
  apply (@blank_chunks_are_inert [[]; [LF]; str "  " ++ [13%N; LF; 9%N]]
           None interleaved).
  vm_compute. repeat constructor.
Defined.

(** X8.  No line handed to [JSON.parse] is blank or contains a line feed,
    and between them the candidate lines of a chunk keep every code unit of
    the chunk that is not white space, in order. *)
Theorem candidate_lines_are_never_blank chunk :
  Forall (fun line => trim line <> [] /\ ~ In LF line) (lines_of chunk)
  /\ filter (fun c => negb (is_white_space c)) (List.concat (lines_of chunk))
     = filter (fun c => negb (is_white_space c)) chunk.
Proof.
  split.
  - unfold lines_of. apply Forall_forall. intros line Hin.
    apply filter_In in Hin as [Hin Hnb]. split.
    + intros Hb. rewrite Hb in Hnb. discriminate.
    + pose proof (split_lines_no_feed chunk) as Hf.
      rewrite Forall_forall in Hf. now apply Hf.
  - unfold lines_of.
    assert (Hdrop : forall pieces,
      filter (fun c => negb (is_white_space c))
        (List.concat (filter (fun line => negb (jsstring_eqb (trim line) [])) pieces))
      = filter (fun c => negb (is_white_space c)) (List.concat pieces)).
    { induction pieces as [|p pieces IH]; cbn; [reflexivity|].
      rewrite filter_app, <- IH.
      destruct (jsstring_eqb (trim p) []) eqn:Hp; cbn.
      - apply jsstring_eqb_nil, trim_empty_iff in Hp.
        replace (filter (fun c => negb (is_white_space c)) p) with (@nil code_unit);
          [reflexivity|].
        clear IH. induction Hp as [|c p Hc _ IHp]; cbn; [reflexivity|].
        now rewrite Hc.
      - now rewrite filter_app. }
    rewrite Hdrop. clear Hdrop.
    induction chunk as [|c chunk IH]; cbn; [reflexivity|].
    destruct (N.eqb_spec c LF) as [->|Hne]; cbn.
    + exact IH.
    + pose proof (split_lines_nonempty chunk) as Hn.
      destruct (split_lines chunk) as [|piece pieces]; [congruence|].
      cbn in *. destruct (is_white_space c); cbn; [exact IH|]. now rewrite IH.
Qed.

(** ** Which lines carry content, and which fail *)

Lemma completed_defined v stack :
  v <> JUndefined -> defined_so_far (completed v stack).
Proof. intros H. destruct stack as [|[|] stack]; cbn; auto. Qed.

Lemma start_value_defined t stack st :
  start_value t stack = Some st -> defined_so_far st.
Proof.
  destruct t; cbn; intros H; try discriminate; injection H as <-;
    try (apply completed_defined; discriminate); exact I.
Qed.

Lemma grammar_step_defined st t st' :
  grammar_step st t = Some st' -> defined_so_far st'.
Proof.
  destruct st, t; cbn; intros H; try discriminate; injection H as <-;
    first [apply completed_defined; discriminate | exact I].
Qed.

Lemma grammar_defined ts : forall st v,
  defined_so_far st -> grammar st ts = Some v -> v <> JUndefined.
Proof.
  induction ts as [|t ts IH]; intros st v Hst H; cbn in H.
  - destruct st; try discriminate. injection H as <-. exact Hst.
  - destruct (grammar_step st t) as [st'|] eqn:Hs; [|discriminate].
    eapply IH; [|eassumption]. eapply grammar_step_defined; eassumption.
Qed.

Lemma JSON_parse_defined text : JSON_parse text <> Normal JUndefined.
Proof.
  unfold JSON_parse. destruct (scan MDefault text) as [ts|]; [|discriminate].
  destruct (grammar (EValue []) ts) as [v|] eqn:Hg; [|discriminate].
  intros H. injection H as ->.
  now apply (@grammar_defined ts (EValue []) JUndefined I Hg).
Qed.

(** X9.  A line adds text to the reply exactly when it parses to an object
    whose [message] member is itself an object with a truthy [content]
    member that converts to a string; the text added is that string.  A
    [message] or a [content] found anywhere else (in an array, in a string,
    at the top level) is never used. *)
Theorem content_comes_only_from_message_objects line d :
  decode line = Normal (Content d)
  <-> exists properties inner c,
        JSON_parse line = Normal (JObject properties)
        /\ own_property properties (key_name key_message) = Some (JObject inner)
        /\ own_property inner (key_name key_content) = Some c
        /\ ToBoolean c = true
        /\ ToString c = Normal d.
Proof.
  split.
  - unfold decode. destruct (JSON_parse line) as [v|e]; [|discriminate].
    destruct v as [| |b|x|t|l|ps]; try (cbn; discriminate).
    unfold message_and_content, message_content. cbn [Get].
    destruct (own_property ps (key_name key_message)) as [message|] eqn:Hm;
      [|cbn; discriminate].
    destruct (ToBoolean message) eqn:Htm.
    + destruct message as [| |b|x|t|l|inner]; try (cbn; discriminate).
      cbn [Get].
      destruct (own_property inner (key_name key_content)) as [c|] eqn:Hc;
        [|cbn; discriminate].
      destruct (ToBoolean c) eqn:Htc.
      * destruct (ToString c) as [d'|e] eqn:Hs; [|discriminate].
        intros H. injection H as <-. exists ps, inner, c. auto.
      * discriminate.
    + rewrite Htm. discriminate.
  - intros (ps & inner & c & Hp & Hm & Hc & Ht & Hs).
    apply (@decode_content line (JObject ps) c d Hp); auto.
    unfold message_content. cbn [Get]. rewrite Hm. cbn [Get]. now rewrite Hc.
Qed.

Lemma content_comes_witness :
  decode (wire "{'message':{'content':'Hel'},'done':false}")
  = Normal (Content (str "Hel")).
Proof.
  apply (proj2 (content_comes_only_from_message_objects
                  (wire "{'message':{'content':'Hel'},'done':false}")
                  (str "Hel"))).
  exists [(str "message", JObject [(str "content", JString (str "Hel"))]);
          (str "done", JBool false)],
         [(str "content", JString (str "Hel"))],
         (JString (str "Hel")).
  vm_compute. auto.
Defined.


(** X10.  The diagnostic of a line has one of three causes, and no other:
    [JSON.parse] rejected the line; the line is the JSON value [null], whose
    [message] cannot be read; or the content is truthy but cannot be
    converted to a string.  In particular numbers, strings, booleans and
    arrays at the top level, and objects without usable content, are passed
    over in silence. *)
Theorem a_line_fails_for_three_reasons_only line e :
  decode line = Throw e
  <-> JSON_parse line = Throw e
      \/ (JSON_parse line = Normal JNull /\ e = TypeError)
      \/ exists properties inner c,
           JSON_parse line = Normal (JObject properties)
           /\ own_property properties (key_name key_message) = Some (JObject inner)
           /\ own_property inner (key_name key_content) = Some c
           /\ ToBoolean c = true
           /\ ToString c = Throw e.
Proof.
  split.
  - pose proof (JSON_parse_defined line) as Hdef.
    unfold decode. destruct (JSON_parse line) as [v|e']; [|intros H; left; congruence].
    destruct v as [| |b|x|t|l|ps]; try (cbn; discriminate).
    + congruence.
    + cbn. intros H. injection H as <-. right. left. auto.
    + unfold message_and_content, message_content. cbn [Get].
      destruct (own_property ps (key_name key_message)) as [message|] eqn:Hm;
        [|cbn; discriminate].
      destruct (ToBoolean message) eqn:Htm.
      * destruct message as [| |b|x|t|l|inner]; try (cbn; discriminate).
        cbn [Get].
        destruct (own_property inner (key_name key_content)) as [c|] eqn:Hc;
          [|cbn; discriminate].
        destruct (ToBoolean c) eqn:Htc; [|discriminate].
        destruct (ToString c) as [d|e'] eqn:Hs; [discriminate|].
        intros H. injection H as <-. right. right. exists ps, inner, c. auto.
      * rewrite Htm. discriminate.
  - intros [H|[[H ->]|(ps & inner & c & Hp & Hm & Hc & Ht & Hs)]].
    + now apply decode_malformed.
    + unfold decode. rewrite H. reflexivity.
    + unfold decode, message_and_content, message_content.
      rewrite Hp. cbn [Get]. rewrite Hm. cbn [ToBoolean Get]. rewrite Hc, Ht, Hs.
      reflexivity.
Qed.

Lemma a_line_fails_witness : decode (wire "null") = Throw TypeError.
Proof.
  apply (proj2 (a_line_fails_for_three_reasons_only (wire "null") TypeError)).
  right. left. vm_compute. auto.
Defined.


(** ** The Thinking indicator *)

Lemma shows_refl m : shows_the_ai m m.
Proof. exists []. split; [now rewrite app_nil_r|constructor]. Qed.

Lemma shows_trans m1 m2 m3 :
  shows_the_ai m1 m2 -> shows_the_ai m2 m3 -> shows_the_ai m1 m3.
Proof.
  intros (x1 & R1 & F1) (x2 & R2 & F2). exists (x1 ++ x2). split.
  - now rewrite R2, R1, app_assoc.
  - apply Forall_app. auto.
Qed.

Lemma shows_append f m :
  (forall prev, exists init x, f prev = init ++ [x] /\ sender x = ai) ->
  shows_the_ai m (snd (setMessages f m)).
Proof.
  intros H. eexists. split; [reflexivity|]. constructor; [|constructor].
  cbn. destruct (H (messages (ui m))) as (init & x & -> & Hx).
  now rewrite last_sender_snoc, Hx.
Qed.

Lemma shows_run_line line m : shows_the_ai m (run_line line m).
Proof.
  rewrite run_line_decode. destruct (decode line) as [[|d]|e].
  - apply shows_refl.
  - cbn. unfold bind, read. cbn.
    destruct (firstChunk m); cbn; eexists; (split; [reflexivity|]);
      (constructor; [|constructor]); cbn.
    + unfold append_reply. now rewrite last_sender_snoc.
    + destruct (update_last_ends (aiResponseText m ++ d) (messages (ui m)))
        as [init ->].
      now rewrite last_sender_snoc.
  - apply shows_append. intros prev. eexists prev, _. split; reflexivity.
Qed.

Lemma shows_run_lines lines : forall m, shows_the_ai m (run_lines lines m).
Proof.
  induction lines as [|l lines IH]; intros m.
  - apply shows_refl.
  - rewrite run_lines_cons.
    eapply shows_trans; [apply shows_run_line|apply IH].
Qed.

Lemma shows_closing ending m : shows_the_ai m (closing ending m).
Proof.
  destruct ending as [e|]; [|apply shows_refl].
  apply shows_append. intros prev. eexists prev, _. split; reflexivity.
Qed.

Lemma shows_converse s um net m :
  shows_the_ai m (snd (try_catch (converse s um net) report_failure m)).
Proof.
  assert (Hreq : forall r, shows_the_ai m (requested r m))
    by (intros r; exists []; split; [cbn; now rewrite app_nil_r|constructor]).
  assert (Hopen : forall r, shows_the_ai m (opened r m))
    by (intros r; exists []; split; [cbn; now rewrite app_nil_r|constructor]).
  destruct net as [e|r].
  - rewrite converse_rejected. cbn [snd].
    eapply shows_trans; [apply Hreq|apply shows_closing].
  - destruct (ok r) eqn:Hok.
    + destruct (body r) as [reader|] eqn:Hb.
      * rewrite (converse_stream _ _ _ _ Hok Hb). cbn [snd].
        eapply shows_trans; [apply Hopen|].
        eapply shows_trans; [apply shows_run_lines|apply shows_closing].
      * rewrite (converse_no_body _ _ _ _ Hok Hb). cbn [snd].
        eapply shows_trans; [apply Hreq|apply shows_closing].
    + rewrite (converse_bad_status _ _ _ _ Hok). cbn [snd].
      eapply shows_trans; [apply Hreq|apply shows_closing].
Qed.

Lemma none_thinking (l : list State) :
  Forall (fun s => last_sender (messages s) = Some ai) l ->
  map thinking l = repeat false (List.length l).
Proof.
  induction 1 as [|s l Hs _ IH]; cbn; [reflexivity|].
  unfold thinking at 1. rewrite Hs, andb_false_r. now rewrite IH.
Qed.

(** X11.  Along a send that passes the guard, the Thinking indicator is on
    in exactly one of the states the send goes through: the one reached by
    [setIsLoading(true)].  Every state after it already ends with a message
    of the AI (a piece of the reply or a diagnostic), and the last state is
    not loading. *)
Theorem thinking_shows_until_the_first_ai_message s net :
  trim (inputText s) <> [] -> isLoading s = false ->
  exists n,
    map thinking (renders (after_send s net))
    = [false; false; true] ++ repeat false (S n).
Proof.
  intros Ht Hl. rewrite (after_send_open s net Ht Hl).
  destruct (shows_converse s (messages s ++ [newUserMessage s]) net (entered s))
    as (extra & Hr & Hall).
  exists (List.length extra).
  cbn [snd setIsLoading commit renders]. rewrite Hr.
  rewrite !map_app, (none_thinking Hall).
  cbn [entered snd bind setMessages setInputText setIsLoading commit renders
       invoke ui app map].
  unfold thinking. cbn [isLoading messages]. rewrite Hl, last_sender_snoc.
  cbn. rewrite <- repeat_cons. reflexivity.
Qed.

Lemma thinking_witness :
  exists n,
    map thinking
      (renders (after_send greeting
                  (streaming [wire "{'done':true}" ++ [LF]
                              ++ wire "{'message':{'content':'ok'}}"])))
    = [false; false; true] ++ repeat false (S n).
Proof.
  apply (@thinking_shows_until_the_first_ai_message greeting
           (streaming [wire "{'done':true}" ++ [LF]
                       ++ wire "{'message':{'content':'ok'}}"])).
  - vm_compute. discriminate.
  - reflexivity.
Defined.

(** ** Speech *)

(** X12.  The voice of an utterance is always one of the installed voices,
    and is missing only when none is installed.  It is an en-US voice
    whenever one is installed, and an en-US voice with Female in its name
    whenever one of those is installed; failing both it is the first voice
    of the list. *)
Theorem preferred_voice_is_the_best_installed voices :
  (preferredVoice voices = None <-> voices = [])
  /\ (forall v, preferredVoice voices = Some v -> In v voices)
  /\ (forall w, In w voices -> is_en_US w = true ->
      exists v, preferredVoice voices = Some v /\ is_en_US v = true)
  /\ (forall w, In w voices -> is_female_en_US w = true ->
      exists v, preferredVoice voices = Some v /\ is_female_en_US v = true)
  /\ ((forall w, In w voices -> is_en_US w = false) ->
      preferredVoice voices = nth_error voices 0).
Proof.
  unfold preferredVoice. repeat split.
  - destruct (find is_female_en_US voices) eqn:Hf; [discriminate|].
    destruct (find is_en_US voices) eqn:He; [discriminate|].
    destruct voices; [reflexivity|discriminate].
  - intros ->. reflexivity.
  - intros v. destruct (find is_female_en_US voices) eqn:Hf.
    + intros H. injection H as <-. now apply find_some in Hf.
    + destruct (find is_en_US voices) eqn:He.
      * intros H. injection H as <-. now apply find_some in He.
      * apply nth_error_In.
  - intros w Hin Hw. destruct (find is_female_en_US voices) as [v|] eqn:Hf.
    + exists v. split; [reflexivity|]. apply find_some in Hf as [_ Hv].
      unfold is_female_en_US in Hv. now apply andb_prop in Hv.
    + destruct (find is_en_US voices) as [v|] eqn:He.
      * exists v. split; [reflexivity|]. now apply find_some in He.
      * rewrite (find_none _ _ He w Hin) in Hw. discriminate.
  - intros w Hin Hw. destruct (find is_female_en_US voices) as [v|] eqn:Hf.
    + exists v. split; [reflexivity|]. now apply find_some in Hf.
    + rewrite (find_none _ _ Hf w Hin) in Hw. discriminate.
  - intros Hno.
    destruct (find is_female_en_US voices) as [v|] eqn:Hf.
    + apply find_some in Hf as [Hin Hv]. unfold is_female_en_US in Hv.
      apply andb_prop in Hv as [Hv _]. unfold is_en_US in Hno.
      now rewrite (Hno v Hin) in Hv.
    + destruct (find is_en_US voices) as [v|] eqn:He; [|reflexivity].
      apply find_some in He as [Hin Hv]. now rewrite (Hno v Hin) in Hv.
Qed.

Lemma preferred_voice_witness :
  exists v, preferredVoice [voice_fr; voice_en; voice_en_female] = Some v
            /\ is_female_en_US v = true.
Proof.
  destruct (preferred_voice_is_the_best_installed
              [voice_fr; voice_en; voice_en_female]) as (_ & _ & _ & H & _).
  apply (H voice_en_female); [cbn; auto|reflexivity].
Defined.

Lemma silent_while_loading syn (l : list State) :
  Forall (fun s => isLoading s = true) l ->
  Forall (fun s => tts_effect syn s = []) l.
Proof.
  intros H. eapply Forall_impl; [|exact H]. intros st Hst. unfold tts_effect.
  rewrite Hst. cbn.
  destruct (at_index (messages st) _) as [[[|] t]|]; reflexivity.
Qed.

(** X13.  Nothing is spoken while a send is under way: in every state the
    send goes through before its last one the TTS effect stays silent,
    whether the toggle is on or off, so that a send leads to at most one
    utterance, made from its final state. *)
Theorem nothing_is_spoken_before_the_send_ends s net syn :
  trim (inputText s) <> [] -> isLoading s = false ->
  Forall (fun st => tts_effect syn st = [])
         (removelast (renders (after_send s net))).
Proof.
  intros Ht Hl. rewrite (after_send_open s net Ht Hl).
  pose proof (same_loading_converse s (messages s ++ [newUserMessage s]) net
                (entered s)) as [_ (extra & Hr & Hall)].
  cbn [snd setIsLoading commit renders]. rewrite removelast_last, Hr.
  apply Forall_app. split.
  - cbn [entered snd bind setMessages setInputText setIsLoading commit renders
         invoke ui app].
    assert (Huser : forall st, messages st = messages s ++ [newUserMessage s] ->
                               tts_effect syn st = []).
    { intros st Hst. unfold tts_effect. rewrite Hst, at_index_last. reflexivity. }
    repeat constructor; apply Huser; reflexivity.
  - now apply silent_while_loading.
Qed.

Lemma nothing_is_spoken_witness :
  Forall (fun st => tts_effect (Some [voice_en]) st = [])
         (removelast
            (renders (after_send greeting_aloud
                        (streaming [wire "{'message':{'content':'ok'}}"])))).
Proof.
  apply (@nothing_is_spoken_before_the_send_ends greeting_aloud
           (streaming [wire "{'message':{'content':'ok'}}"]) (Some [voice_en])).
  - vm_compute. discriminate.
  - reflexivity.
Defined.

(** After a send that passes the guard the effect speaks the last message
    when it is the AI's, as the toggle found at the start of the send
    allows. *)
Lemma spoken_after_send s net syn init x :
  trim (inputText s) <> [] -> isLoading s = false ->
  messages (ui (after_send s net)) = init ++ [x] ->
  tts_effect syn (ui (after_send s net))
  = match sender x with
    | ai => speakText (ttsEnabled s) syn (text x)
    | user => []
    end.
Proof.
  intros Ht Hl Hm.
  assert (Hload : isLoading (ui (after_send s net)) = false)
    by now rewrite (after_send_open s net Ht Hl).
  assert (Htts : ttsEnabled (ui (after_send s net)) = ttsEnabled s).
  { destruct (send_frame s net Ht Hl) as [_ Hb].
    unfold bystanders in Hb. congruence. }
  unfold tts_effect. rewrite Hm, at_index_last, Hload, Htts.
  destruct x as [[|] t]; reflexivity.
Qed.

(** X14.  With the TTS toggle on and speech synthesis present, a send whose
    stream ends as in X5 (a content line followed only by lines without
    content) speaks once, and what it speaks is the complete reply, in the
    preferred voice at rate and pitch one, even when earlier lines of the
    stream were malformed. *)
Theorem the_whole_reply_is_spoken s st delivered before l d after voices :
  trim (inputText s) <> [] -> isLoading s = false ->
  ttsEnabled s = true ->
  ((200 <=? st) && (st <=? 299))%N = true ->
  all_lines delivered = before ++ l :: after ->
  decode l = Normal (Content d) ->
  Forall (fun x => decode x = Normal NoContent) after ->
  tts_effect (Some voices) (ui (after_send s (stream_of st delivered None)))
  = [{| utterance_text := reply_text (all_lines delivered);
        utterance_voice := preferredVoice voices;
        utterance_rate := one;
        utterance_pitch := one |}].
Proof.
  intros Ht Hl Hon Hst Hlines Hd Hafter.
  destruct (@reply_is_last s st delivered before l d after
              Ht Hl Hst Hlines Hd Hafter)
    as [init Hinit].
  rewrite (@spoken_after_send s _ (Some voices) init _ Ht Hl Hinit).
  cbn [sender text]. unfold speakText. rewrite Hon. reflexivity.
Qed.

Lemma the_whole_reply_is_spoken_witness :
  tts_effect (Some [voice_fr; voice_en])
    (ui (after_send greeting_aloud
           (stream_of 200
              [wire "not-json" ++ [LF] ++ wire "{'message':{'content':'Hel'}}" ++ [LF];
               wire "{'message':{'content':'lo'}}" ++ [LF] ++ wire "{'done':true}"]
              None)))
  = [{| utterance_text :=
          reply_text
            (all_lines
               [wire "not-json" ++ [LF] ++ wire "{'message':{'content':'Hel'}}" ++ [LF];
                wire "{'message':{'content':'lo'}}" ++ [LF] ++ wire "{'done':true}"]);
        utterance_voice := preferredVoice [voice_fr; voice_en];
        utterance_rate := one;
        utterance_pitch := one |}].
Proof.
  apply (@the_whole_reply_is_spoken greeting_aloud 200
           [wire "not-json" ++ [LF] ++ wire "{'message':{'content':'Hel'}}" ++ [LF];
            wire "{'message':{'content':'lo'}}" ++ [LF] ++ wire "{'done':true}"]
           [wire "not-json"; wire "{'message':{'content':'Hel'}}"]
           (wire "{'message':{'content':'lo'}}") (str "lo")
           [wire "{'done':true}"] [voice_fr; voice_en]).
  - vm_compute. discriminate.
  - reflexivity.
  - reflexivity.
  - reflexivity.
  - vm_compute. reflexivity.
  - vm_compute. reflexivity.
  - repeat constructor.
Defined.

(** X15.  With the TTS toggle on and speech synthesis present, a send that
    fails at the transport (the request is rejected, the status is outside
    200-299, the body is missing, or a read fails) speaks its failure
    notice; and a send whose stream ends without having added any message
    of the AI speaks nothing. *)
Theorem a_failed_send_speaks_its_notice s voices :
  trim (inputText s) <> [] -> isLoading s = false ->
  ttsEnabled s = true ->
  (forall net e,
      (net = Rejects e
       \/ (exists r, net = Resolves r /\ ok r = false
                     /\ e = Error (str "HTTP error! status: " ++ decimal (status r)))
       \/ (exists r, net = Resolves r /\ ok r = true /\ body r = None
                     /\ e = Error (str "Response body is null"))
       \/ (exists st delivered,
              net = stream_of st delivered (Some e)
              /\ ((200 <=? st) && (st <=? 299))%N = true)) ->
      tts_effect (Some voices) (ui (after_send s net))
      = [{| utterance_text := text (failure_notice e);
            utterance_voice := preferredVoice voices;
            utterance_rate := one;
            utterance_pitch := one |}])
  /\ (forall st delivered,
         ((200 <=? st) && (st <=? 299))%N = true ->
         Forall (fun x => decode x = Normal NoContent) (all_lines delivered) ->
         tts_effect (Some voices) (ui (after_send s (stream_of st delivered None)))
         = []).
Proof.
  intros Ht Hl Hon. split.
  - intros net e Hcase.
    assert (Hlast : exists init,
               messages (ui (after_send s net)) = init ++ [failure_notice e]).
    { rewrite (after_send_open s net Ht Hl).
      cbn [snd setIsLoading commit ui messages].
      destruct Hcase as [->|[(r & -> & Hok & ->)|[(r & -> & Hok & Hb & ->)
                        |(st & delivered & -> & Hst)]]].
      - rewrite converse_rejected. eexists. reflexivity.
      - rewrite (converse_bad_status _ _ _ _ Hok). eexists. reflexivity.
      - rewrite (converse_no_body _ _ _ _ Hok Hb). eexists. reflexivity.
      - unfold stream_of.
        rewrite (converse_stream s _
                   {| status := st;
                      body := Some {| chunks := delivered; failure := Some e |} |}
                   _ Hst eq_refl).
        eexists. reflexivity. }
    destruct Hlast as [init Hinit].
    rewrite (@spoken_after_send s net (Some voices) init _ Ht Hl Hinit).
    cbn [sender failure_notice]. unfold speakText. rewrite Hon. reflexivity.
  - intros st delivered Hst Hquiet.
    assert (Hm : messages (ui (after_send s (stream_of st delivered None)))
                 = messages s ++ [newUserMessage s]).
    { rewrite (after_send_open s _ Ht Hl). unfold stream_of.
      rewrite (converse_stream s _
                 {| status := st;
                    body := Some {| chunks := delivered; failure := None |} |}
                 _ Hst eq_refl).
      cbn [snd closing failure chunks setIsLoading commit ui messages].
      now rewrite (proj1 (quiet_lines _ Hquiet)). }
    now rewrite (@spoken_after_send s _ (Some voices) _ _ Ht Hl Hm).
Qed.

Lemma a_failed_send_witness :
  tts_effect (Some [voice_en])
    (ui (after_send greeting_aloud (Resolves {| status := 503; body := None |})))
  = [{| utterance_text :=
          text (failure_notice (Error (str "HTTP error! status: " ++ decimal 503)));
        utterance_voice := preferredVoice [voice_en];
        utterance_rate := one;
        utterance_pitch := one |}].
Proof.
  assert (Ht : trim (inputText greeting_aloud) <> []) by (vm_compute; discriminate).
  destruct (@a_failed_send_speaks_its_notice greeting_aloud [voice_en]
              Ht eq_refl eq_refl) as [Hfail _].
  apply (Hfail (Resolves {| status := 503; body := None |})).
  right. left. exists {| status := 503; body := None |}. repeat split.
Defined.

(** ** One send after another *)

(** X23.  Notices of failure become part of the conversation: when a send
    has failed at the transport and the user types and sends again, the
    request of the second send carries the earlier transcript, the first
    message of the user, the failure notice in role assistant, and the new
    message of the user, in that order. *)
Theorem a_failure_notice_is_sent_back_to_the_model s e again net :
  trim (inputText s) <> [] -> isLoading s = false ->
  trim again <> [] ->
  exists request,
    requests (after_send (typing again (ui (after_send s (Rejects e)))) net)
    = [request]
    /\ map content (request_messages request)
       = map text (messages s)
         ++ [inputText s; text (failure_notice e); again]
    /\ map role (request_messages request)
       = map (fun msg => match sender msg with
                         | user => role_user
                         | ai => role_assistant
                         end) (messages s)
         ++ [role_user; role_assistant; role_user].
Proof.
  intros Ht Hl Hagain.
  set (s2 := typing again (ui (after_send s (Rejects e)))).
  assert (Hm : messages s2 = messages s ++ [newUserMessage s; failure_notice e]).
  { unfold s2. rewrite (after_send_open s _ Ht Hl), converse_rejected.
    cbn. now rewrite <- app_assoc. }
  assert (Hl2 : isLoading s2 = false).
  { unfold s2. now rewrite (after_send_open s _ Ht Hl). }
  exists (chat_request s2 (messages s2 ++ [newUserMessage s2])).
  split.
  - rewrite (after_send_open s2 net Hagain Hl2).
    cbn [snd setIsLoading commit requests].
    now rewrite (proj1 (frame_converse s2 _ net (entered s2))).
  - cbn [chat_request request_messages].
    rewrite !map_map, Hm, !map_app. cbn. rewrite <- !app_assoc. auto.
Qed.

Lemma a_failure_notice_witness :
  exists request,
    requests (after_send
                (typing (str "hello?")
                   (ui (after_send greeting (Rejects TypeError))))
                (streaming []))
    = [request]
    /\ map content (request_messages request)
       = [] ++ [str "hi"; text (failure_notice TypeError); str "hello?"]
    /\ map role (request_messages request)
       = [] ++ [role_user; role_assistant; role_user].
Proof.
  apply (@a_failure_notice_is_sent_back_to_the_model greeting TypeError
           (str "hello?") (streaming [])).
  - vm_compute. discriminate.
  - reflexivity.
  - vm_compute. discriminate.
Defined.

End Extras.


(* ===================================================================== *)
(** * Properties of the settings panel *)
(* ===================================================================== *)

Module PanelProps.
Import JS Net Body SettingsPanel.

(** X16.  [fetchModels] never leaves the panel loading: whatever the
    network does, the loading flag is up in every state the fetch goes
    through except the last, where it is down; an open panel shows the
    loading notice throughout and stops showing it at the end. *)
Theorem fetch_models_always_stops_loading net p :
  Forall (fun q => isLoading q = true /\ view true q = LoadingModels)
         (removelast (fetchModels net p))
  /\ isLoading (after_fetch net p) = false
  /\ view true (after_fetch net p) <> LoadingModels.
Proof.
  unfold after_fetch, fetchModels. cbn [removelast last].
  destruct (listing net) as [v|e].
  - split; [repeat constructor|]. split; [reflexivity|].
    unfold view. cbn [negb isLoading setIsLoading setModels setError error models].
    destruct (has_length_zero v); [discriminate|].
    destruct v as [| |b|x|t|l|ps]; try discriminate.
    destruct (forallb item_renders l); discriminate.
  - split; [repeat constructor|]. split; [reflexivity|]. discriminate.
Qed.

Lemma listing_fails net e :
  net = Rejects e
  \/ (exists r, net = Resolves r /\ ok r = false
                /\ e = Error (str "HTTP error! status: " ++ decimal (status r)))
  \/ (exists r, net = Resolves r /\ ok r = true /\ json r = Throw e)
  \/ (exists r, net = Resolves r /\ ok r = true /\ json r = Normal JNull
                /\ e = TypeError) ->
  listing net = Throw e.
Proof.
  intros [->|[(r & -> & Hok & ->)|[(r & -> & Hok & Hj)|(r & -> & Hok & Hj & ->)]]];
    cbn; try reflexivity; rewrite Hok; cbn; try reflexivity; now rewrite Hj.
Qed.

(** X17.  When the fetch of the model list fails (the request is rejected,
    the status is outside 200-299, the body cannot be read or is not JSON,
    or it is the JSON value [null]), the panel keeps the list it had, sets
    the fixed error text, and, when open, shows that error with its Try
    Again button instead of the list. *)
Theorem a_failed_fetch_keeps_the_old_list net e p :
  net = Rejects e
  \/ (exists r, net = Resolves r /\ ok r = false
                /\ e = Error (str "HTTP error! status: " ++ decimal (status r)))
  \/ (exists r, net = Resolves r /\ ok r = true /\ json r = Throw e)
  \/ (exists r, net = Resolves r /\ ok r = true /\ json r = Normal JNull
                /\ e = TypeError) ->
  models (after_fetch net p) = models p
  /\ error (after_fetch net p) = Some failed_to_fetch
  /\ view true (after_fetch net p) = FetchFailed failed_to_fetch.
Proof.
  intros H. unfold after_fetch, fetchModels. rewrite (listing_fails H).
  repeat split.
Qed.

Lemma a_failed_fetch_witness :
  models (after_fetch (replying 200 (str "<html>")) stocked) = models stocked
  /\ error (after_fetch (replying 200 (str "<html>")) stocked)
     = Some failed_to_fetch
  /\ view true (after_fetch (replying 200 (str "<html>")) stocked)
     = FetchFailed failed_to_fetch.
Proof.
  apply (@a_failed_fetch_keeps_the_old_list
           (replying 200 (str "<html>")) SyntaxError stocked).
  right. right. left. eexists. repeat split.
Defined.

(** X18.  When the fetch succeeds (status in 200-299, body parsed to a
    value other than [null]), any earlier error is cleared and the list
    becomes the [models] member of the body when that is truthy, and the
    empty list when the body has no such member or a falsy one.  The open
    panel then shows the No models notice when the member is missing,
    falsy, or of length zero; and when the member is truthy, is not an
    array and is not of length zero, rendering the open panel throws, since
    [models.map] is not a function. *)
Theorem a_successful_fetch_replaces_the_list r data p :
  ok r = true -> json r = Normal data -> data <> JNull ->
  error (after_fetch (Resolves r) p) = None
  /\ (forall properties v,
         data = JObject properties ->
         own_property properties (str "models") = Some v ->
         ToBoolean v = true ->
         models (after_fetch (Resolves r) p) = v
         /\ (has_length_zero v = true ->
             view true (after_fetch (Resolves r) p) = NoModels)
         /\ (has_length_zero v = false ->
             (forall items, v <> JArray items) ->
             view true (after_fetch (Resolves r) p) = RenderThrows))
  /\ ((forall properties v,
          data = JObject properties ->
          own_property properties (str "models") = Some v ->
          ToBoolean v = false) ->
      models (after_fetch (Resolves r) p) = JArray []
      /\ view true (after_fetch (Resolves r) p) = NoModels).
Proof.
  intros Hok Hj Hnull.
  assert (Hundef : data <> JUndefined).
  { intros ->. unfold json in Hj.
    destruct (body r) as [reader|];
      [destruct (failure reader); [discriminate|]|];
      now apply Extras.JSON_parse_defined in Hj. }
  unfold after_fetch, fetchModels, listing. rewrite Hok, Hj. cbn [negb].
  unfold models_or_none.
  destruct data as [| |b|x|t|l|ps]; try congruence; cbn [member].
  1-4: (split; [reflexivity|]; split; [intros ? ? H; discriminate|];
        intros _; split; reflexivity).
  destruct (own_property ps (str "models")) as [v|] eqn:Hv.
  - destruct (ToBoolean v) eqn:Htv.
    + split; [reflexivity|]. split.
      * intros ? v' H Hv' _. injection H as <-.
        rewrite Hv in Hv'. injection Hv' as <-.
        cbn [last]. split; [reflexivity|]. unfold view.
        cbn [negb isLoading error models setIsLoading setModels setError].
        split.
        -- intros Hz. rewrite Hz. reflexivity.
        -- intros Hz Hna. rewrite Hz.
           destruct v as [| |b|x|t|l|qs]; try reflexivity.
           now destruct (Hna l).
      * intros H. specialize (H ps v eq_refl Hv). congruence.
    + split; [reflexivity|]. split.
      * intros ? v' H Hv' Ht. injection H as <-.
        rewrite Hv in Hv'. injection Hv' as <-. congruence.
      * intros _. split; reflexivity.
  - split; [reflexivity|]. split.
    + intros ? v' H Hv'. injection H as <-. congruence.
    + intros _. split; reflexivity.
Qed.

Lemma a_successful_fetch_witness :
  models (after_fetch (replying 200 (Home.wire "{'models':'none yet'}"))
                      (setError (Some failed_to_fetch) mounted))
  = JString (str "none yet")
  /\ (has_length_zero (JString (str "none yet")) = true ->
      view true (after_fetch (replying 200 (Home.wire "{'models':'none yet'}"))
                             (setError (Some failed_to_fetch) mounted))
      = NoModels)
  /\ (has_length_zero (JString (str "none yet")) = false ->
      (forall items, JString (str "none yet") <> JArray items) ->
      view true (after_fetch (replying 200 (Home.wire "{'models':'none yet'}"))
                             (setError (Some failed_to_fetch) mounted))
      = RenderThrows).
Proof.
  assert (Hparse : json {| status := 200;
                           body := Some {| chunks := [Home.wire "{'models':'none yet'}"];
                                           failure := None |} |}
                   = Normal (JObject [(str "models", JString (str "none yet"))]))
    by (vm_compute; reflexivity).
  assert (Hnull : JObject [(str "models", JString (str "none yet"))] <> JNull)
    by discriminate.
  destruct (@a_successful_fetch_replaces_the_list
              {| status := 200;
                 body := Some {| chunks := [Home.wire "{'models':'none yet'}"];
                                 failure := None |} |}
              (JObject [(str "models", JString (str "none yet"))])
              (setError (Some failed_to_fetch) mounted) eq_refl Hparse Hnull)
    as (_ & Hlist & _).
  apply (Hlist [(str "models", JString (str "none yet"))]
               (JString (str "none yet"))); reflexivity.
Defined.

Lemma a_stray_string_breaks_the_panel :
  view true (after_fetch (replying 200 (Home.wire "{'models':'none yet'}")) mounted)
  = RenderThrows.
Proof. vm_compute. reflexivity. Qed.

End PanelProps.

(* ===================================================================== *)
(** * Properties of the TTS service *)
(* ===================================================================== *)

Module ServiceProps.
Import JS Net Body TTSService.

Lemma jsstring_eqb_eq a : forall b, jsstring_eqb a b = true <-> a = b.
Proof.
  induction a as [|x a IH]; intros [|y b]; cbn; split; try congruence.
  - intros H. apply andb_prop in H as [Hx Hr].
    apply N.eqb_eq in Hx. apply IH in Hr. congruence.
  - intros H. injection H as -> ->. rewrite N.eqb_refl. now apply IH.
Qed.

(** X19.  The server counts as ready exactly when the health request
    resolves and its body parses to an object whose [status] member is the
    string ready.  The HTTP status of the answer plays no part, and a
    rejected request, an unreadable or non-JSON body, a body that is not an
    object, and any other [status] all count as not ready. *)
Theorem ready_means_the_body_says_ready w :
  isTTSServerReady w = true
  <-> exists r properties,
        health w = Resolves r
        /\ json r = Normal (JObject properties)
        /\ own_property properties (str "status") = Some (JString (str "ready")).
Proof.
  unfold isTTSServerReady. split.
  - destruct (health w) as [e|r]; [discriminate|].
    destruct (json r) as [data|e] eqn:Hj; [|discriminate].
    destruct data as [| |b|x|t|l|ps]; try discriminate. cbn [member].
    destruct (own_property ps (str "status")) as [[| |b|x|t|l|qs]|] eqn:Hs;
      try discriminate.
    intros H. apply jsstring_eqb_eq in H. subst t. exists r, ps. auto.
  - intros (r & ps & -> & -> & Hs). cbn [member]. rewrite Hs. reflexivity.
Qed.

Lemma ready_witness : isTTSServerReady ready_despite_status = true.
Proof.
  apply (proj2 (ready_means_the_body_says_ready ready_despite_status)).
  exists {| status := 500;
            body := Some {| chunks := [Home.wire "{'status':'ready'}"];
                            failure := None |} |},
         [(str "status", JString (str "ready"))].
  vm_compute. auto.
Defined.


(** X20.  [textToSpeech] sends nothing at all for a text that is empty or
    made of white space, and never sends a synthesis request without a
    health check just before it that found the server ready; the synthesis
    request it sends is the one built from the options and their
    defaults. *)
Theorem synthesis_is_requested_only_when_ready options w :
  (Forall (fun c => is_white_space c = true) (text options) ->
   textToSpeech options w = (None, []))
  /\ (snd (textToSpeech options w) = []
      \/ snd (textToSpeech options w) = [HealthCheck]
      \/ (snd (textToSpeech options w)
          = [HealthCheck; Synthesize (synthesis_request options)]
          /\ isTTSServerReady w = true
          /\ trim (text options) <> [])).
Proof.
  unfold textToSpeech. split.
  - intros H. now rewrite (Props.trim_blank H).
  - destruct (trim (text options)) as [|c t] eqn:Ht; [left; reflexivity|].
    cbn [ToBoolean negb].
    destruct (isTTSServerReady w) eqn:Hr; [|right; left; reflexivity].
    right. right. cbn [negb].
    assert (Hs : snd (match synthesis w with
                      | Rejects _ =>
                          (None, [HealthCheck; Synthesize (synthesis_request options)])
                      | Resolves response =>
                          if negb (ok response)
                          then (None, [HealthCheck; Synthesize (synthesis_request options)])
                          else match blob response with
                               | Normal _ =>
                                   (Some (object_url w),
                                    [HealthCheck; Synthesize (synthesis_request options)])
                               | Throw _ =>
                                   (None, [HealthCheck; Synthesize (synthesis_request options)])
                               end
                      end)
                 = [HealthCheck; Synthesize (synthesis_request options)]).
    { destruct (synthesis w) as [e|r]; [reflexivity|].
      destruct (ok r); [|reflexivity]. destruct (blob r); reflexivity. }
    rewrite Hs. split; [reflexivity|]. split; [reflexivity|discriminate].
Qed.

Lemma synthesis_is_requested_witness :
  textToSpeech (saying (str "  ")) fair_weather = (None, []).
Proof.
  apply (proj1 (synthesis_is_requested_only_when_ready (saying (str "  "))
                  fair_weather)).
  repeat constructor.
Defined.

(** X21.  [textToSpeech] yields a URL exactly when the text is not blank,
    the server is ready, the synthesis request resolves with a status in
    200-299 and its body can be read; the URL is then the one the browser
    made for the audio.  In every other case it yields [null]; it never
    throws. *)
Theorem an_audio_url_needs_everything_to_succeed options w url :
  fst (textToSpeech options w) = Some url
  <-> trim (text options) <> []
      /\ isTTSServerReady w = true
      /\ url = object_url w
      /\ exists r, synthesis w = Resolves r /\ ok r = true
                   /\ blob r = Normal tt.
Proof.
  unfold textToSpeech. split.
  - destruct (trim (text options)) as [|c t] eqn:Ht; [discriminate|].
    cbn [ToBoolean negb].
    destruct (isTTSServerReady w) eqn:Hr; [|discriminate]. cbn [negb].
    destruct (synthesis w) as [e|r]; [discriminate|].
    destruct (ok r) eqn:Hok; [|discriminate]. cbn [negb].
    destruct (blob r) as [[]|e] eqn:Hb; [|discriminate].
    cbn. intros H. injection H as <-.
    split; [discriminate|]. repeat split. eauto.
  - intros (Ht & Hr & -> & r & Hs & Hok & Hb).
    destruct (trim (text options)) as [|c t]; [congruence|].
    cbn [ToBoolean negb]. rewrite Hr, Hs, Hok, Hb. reflexivity.
Qed.

Lemma an_audio_url_witness :
  fst (textToSpeech (saying (str "hi")) fair_weather)
  = Some (object_url fair_weather).
Proof.
  apply (proj2 (an_audio_url_needs_everything_to_succeed
                  (saying (str "hi")) fair_weather (object_url fair_weather))).
  split; [vm_compute; discriminate|]. split; [reflexivity|].
  split; [reflexivity|].
  exists {| status := 200;
            body := Some {| chunks := [str "RIFF"]; failure := None |} |}.
  repeat split.
Defined.


(** X22.  [speak] resolves to true exactly when [textToSpeech] yields a
    non-empty URL and the audio starts playing.  It stays pending exactly
    when the URL is there but the audio element never reports playing nor
    an error; in every other case it resolves to false, and it never
    rejects. *)
Theorem speak_succeeds_only_when_audio_plays options w :
  (speak options w = Some true
   <-> exists url, fst (textToSpeech options w) = Some url
                   /\ url <> [] /\ playback w = Plays)
  /\ (speak options w = None
      <-> exists url, fst (textToSpeech options w) = Some url
                      /\ url <> [] /\ playback w = Stalls).
Proof.
  unfold speak, playAudio. split; split.
  - destruct (fst (textToSpeech options w)) as [url|]; [|discriminate].
    destruct url as [|c url]; [discriminate|]. cbn [ToBoolean negb].
    destruct (playback w); try discriminate.
    intros _. eexists. repeat split. discriminate.
  - intros (url & -> & Hu & ->). destruct url; [congruence|reflexivity].
  - destruct (fst (textToSpeech options w)) as [url|]; [|discriminate].
    destruct url as [|c url]; [discriminate|]. cbn [ToBoolean negb].
    destruct (playback w); try discriminate.
    intros _. eexists. repeat split. discriminate.
  - intros (url & -> & Hu & ->). destruct url; [congruence|reflexivity].
Qed.

Lemma speak_succeeds_witness : speak (saying (str "hi")) fair_weather = Some true.
Proof.
  apply (proj2 (proj1 (speak_succeeds_only_when_audio_plays
                         (saying (str "hi")) fair_weather))).
  exists (object_url fair_weather).
  split; [reflexivity|]. split; [discriminate|reflexivity].
Defined.


End ServiceProps.
